(** * Network byte order values and Ethernet frame composition

    A shallow embedding of [net/endian.hpp] (the [net_t] template and the
    [change_endian_t] conversions) and of the Ethernet frame composer
    ([ethernet_send_frame], [_ethernet_write_header]).

    Integers of the program are [Z] with the wrap-around written out, bytes
    are [Z] in [0, 256), memory is a flat map from addresses to bytes. *)

From stdpp Require Import base numbers list strings.

Local Open Scope Z_scope.

(** ** Part I: the program *)

(** *** <endian.h>: host byte order *)

Inductive endianness := LittleEndian | BigEndian.

Definition __LITTLE_ENDIAN : Z := 1234.
Definition __BIG_ENDIAN : Z := 4321.

(** Outcome of preprocessing the header: either the code that was selected
    or the diagnostic of an [#error] directive. *)
Inductive build (A : Type) :=
  | Built (a : A)
  | BuildError (msg : string).
Arguments Built {A} a.
Arguments BuildError {A} msg.

(** The [#if __BYTE_ORDER == __LITTLE_ENDIAN / #elif ... / #else #error]
    chain of [_change_endian].  The directive sits in the header text, so it
    is evaluated whenever the header is included. *)
Definition select_byte_order (__BYTE_ORDER : Z) : build endianness :=
  if __BYTE_ORDER =? __LITTLE_ENDIAN then Built LittleEndian
  else if __BYTE_ORDER =? __BIG_ENDIAN then Built BigEndian
  else BuildError "Please set __BYTE_ORDER in <bits/endian.h>".

(** *** Fixed-width unsigned integers *)

(** The instances of [host_t]: the two types with a specialised
    [change_endian_t], and any other unsigned type, given by its [sizeof]. *)
Inductive host_t :=
  | uint16_t
  | uint32_t
  | uint_other (size : nat).

Definition sizeof (T : host_t) : nat :=
  match T with
  | uint16_t => 2
  | uint32_t => 4
  | uint_other size => size
  end.

Definition modulus (T : host_t) : Z := 2 ^ (8 * Z.of_nat (sizeof T)).

Definition representable (T : host_t) (v : Z) : Prop := 0 <= v < modulus T.

(** Conversion of an integer expression to [host_t] (what happens when the
    result of [a.host() + b.host()] is passed to a [host_t] parameter). *)
Definition convert (T : host_t) (z : Z) : Z := z mod modulus T.

(** Object representation of an unsigned integer of [n] bytes. *)
Fixpoint le_bytes (n : nat) (v : Z) : list Z :=
  match n with
  | O => []
  | S n' => v mod 256 :: le_bytes n' (v / 256)
  end.

Fixpoint le_value (bytes : list Z) : Z :=
  match bytes with
  | [] => 0
  | b :: bytes' => b + 256 * le_value bytes'
  end.

Definition object_bytes (e : endianness) (n : nat) (v : Z) : list Z :=
  match e with
  | LittleEndian => le_bytes n v
  | BigEndian => reverse (le_bytes n v)
  end.

(** The values a [uint8_t] holds. *)
Definition is_byte (b : Z) : Prop := 0 <= b < 256.

(** *** <arpa/inet.h>: the platform's conversion primitives *)

Definition bswap_16 (x : Z) : Z :=
  Z.lor (Z.land (Z.shiftr x 8) 0xff) (Z.shiftl (Z.land x 0xff) 8).

Definition bswap_32 (x : Z) : Z :=
  Z.lor (Z.lor (Z.lor (Z.shiftr (Z.land x 0xff000000) 24)
                      (Z.shiftr (Z.land x 0x00ff0000) 8))
               (Z.shiftl (Z.land x 0x0000ff00) 8))
        (Z.shiftl (Z.land x 0x000000ff) 24).

Definition htons (e : endianness) (hostshort : Z) : Z :=
  match e with LittleEndian => bswap_16 hostshort | BigEndian => hostshort end.

Definition ntohs (e : endianness) (netshort : Z) : Z :=
  match e with LittleEndian => bswap_16 netshort | BigEndian => netshort end.

Definition htonl (e : endianness) (hostlong : Z) : Z :=
  match e with LittleEndian => bswap_32 hostlong | BigEndian => hostlong end.

Definition ntohl (e : endianness) (netlong : Z) : Z :=
  match e with LittleEndian => bswap_32 netlong | BigEndian => netlong end.

(** *** change_endian_t *)

(** [swap<uint8_t>(value_bytes[i], value_bytes[j])].  Both indices are
    inside the object in every call of the loop below; outside it the C++
    is undefined and the model leaves the bytes alone. *)
Definition swap (i j : nat) (value_bytes : list Z) : list Z :=
  match value_bytes !! i, value_bytes !! j with
  | Some a, Some b => <[j:=a]> (<[i:=b]> value_bytes)
  | _, _ => value_bytes
  end.

(** [for (int i = ...; i < sizeof (host_t) / 2; i++) swap(...)], with
    [remaining] the number of iterations left. *)
Fixpoint swap_loop (size remaining i : nat) (value_bytes : list Z) : list Z :=
  match remaining with
  | O => value_bytes
  | S remaining' =>
      swap_loop size remaining' (S i) (swap i (size - 1 - i) value_bytes)
  end.

(** Default bytes swapping implementation. *)
Definition _change_endian (e : endianness) (size : nat) (value : Z) : Z :=
  match e with
  | LittleEndian =>
      le_value (swap_loop size (size / 2) 0 (le_bytes size value))
  | BigEndian => value
  end.

Definition to_network (e : endianness) (T : host_t) (host : Z) : Z :=
  match T with
  | uint16_t => htons e host
  | uint32_t => htonl e host
  | uint_other size => _change_endian e size host
  end.

Definition to_host (e : endianness) (T : host_t) (net : Z) : Z :=
  match T with
  | uint16_t => ntohs e net
  | uint32_t => ntohl e net
  | uint_other size => _change_endian e size net
  end.

(** *** net_t *)

(** Contains a value in network byte order. *)
Record net_t (T : host_t) := Build_net_t { net : Z }.
Arguments Build_net_t {T} net.
Arguments net {T} n.

Section NetT.
Context (e : endianness) (T : host_t).

(** [net_t(host_t host)]: initializes with an host byte order value. *)
Definition of_host (host : Z) : net_t T :=
  {| net := to_network e T host |}.

Definition host (a : net_t T) : Z := to_host e T (net a).

(** Constructs a network byte order value from a value which is already
    in network byte order. *)
Definition from_net (_net : Z) : net_t T := {| net := _net |}.

Definition eq_net_net (a b : net_t T) : bool := net a =? net b.
Definition ne_net_net (a b : net_t T) : bool := negb (net a =? net b).
Definition eq_net_host (a : net_t T) (b : Z) : bool := host a =? b.
Definition ne_net_host (a : net_t T) (b : Z) : bool := negb (host a =? b).
Definition eq_host_net (a : Z) (b : net_t T) : bool := a =? host b.
Definition ne_host_net (a : Z) (b : net_t T) : bool := negb (a =? host b).

Definition add_net_net (a b : net_t T) : net_t T :=
  of_host (convert T (host a + host b)).
Definition add_net_host (a : net_t T) (b : Z) : net_t T :=
  of_host (convert T (host a + b)).
Definition add_host_net (a : Z) (b : net_t T) : net_t T :=
  of_host (convert T (a + host b)).
Definition sub_net_net (a b : net_t T) : net_t T :=
  of_host (convert T (host a - host b)).
Definition sub_net_host (a : net_t T) (b : Z) : net_t T :=
  of_host (convert T (host a - b)).
Definition sub_host_net (a : Z) (b : net_t T) : net_t T :=
  of_host (convert T (a - host b)).

(** [std::equal_to<net_t<host_t>>] and [std::hash<net_t<host_t>>]; the
    hash of the underlying integer type belongs to the standard library
    and is a parameter. *)
Definition equal_to (a b : net_t T) : bool := eq_net_net a b.

Definition hash (hash_host_t : Z -> Z) (value : net_t T) : Z :=
  hash_host_t (net value).
End NetT.

Arguments host e {T} a.
Arguments eq_net_net {T} a b.
Arguments ne_net_net {T} a b.
Arguments eq_net_host e {T} a b.
Arguments ne_net_host e {T} a b.
Arguments eq_host_net e {T} a b.
Arguments ne_host_net e {T} a b.
Arguments add_net_net e {T} a b.
Arguments add_net_host e {T} a b.
Arguments add_host_net e {T} a b.
Arguments sub_net_net e {T} a b.
Arguments sub_net_host e {T} a b.
Arguments sub_host_net e {T} a b.
Arguments equal_to {T} a b.
Arguments hash {T} hash_host_t value.

(** *** Memory holding the packet buffers *)

(** A flat byte-addressed memory.  A write outside a buffer lands in
    whatever lies there: the code checks no bound. *)
Definition mem := Z -> Z.

Definition store_byte (addr b : Z) (m : mem) : mem :=
  fun a => if decide (a = addr) then b else m a.

Fixpoint store_bytes (addr : Z) (bytes : list Z) (m : mem) : mem :=
  match bytes with
  | [] => m
  | b :: bytes' => store_bytes (addr + 1) bytes' (store_byte addr b m)
  end.

Fixpoint load_bytes (m : mem) (addr : Z) (n : nat) : list Z :=
  match n with
  | O => []
  | S n' => m addr :: load_bytes m (addr + 1) n'
  end.

(** [mempcpy(dest, src, n)] from an object given by its bytes. *)
Definition mempcpy (dest : Z) (src : list Z) (n : nat) (m : mem) : mem :=
  store_bytes dest (take n src) m.

(** *** <net/ethernet.h> *)

(** [struct ether_addr { uint8_t ether_addr_octet[6]; }]. *)
Record ether_addr := Build_ether_addr {
  octet0 : Z; octet1 : Z; octet2 : Z; octet3 : Z; octet4 : Z; octet5 : Z
}.

Definition ether_addr_octet (a : ether_addr) : list Z :=
  [octet0 a; octet1 a; octet2 a; octet3 a; octet4 a; octet5 a].

Definition sizeof_ether_addr : nat := 6.

(** [struct ether_header { uint8_t ether_dhost[6]; uint8_t ether_shost[6];
    uint16_t ether_type; }], packed. *)
Definition offsetof_ether_dhost : Z := 0.
Definition offsetof_ether_shost : Z := 6.
Definition offsetof_ether_type : Z := 12.
Definition sizeof_ether_header : nat := 14.

(** *** <gxio/mpipe.h>: buffer and egress descriptors *)

Record gxio_mpipe_bdesc_t := Build_bdesc {
  bdesc_va : Z; bdesc_stack_idx : Z; bdesc_inst : Z;
  bdesc_hwb : Z; bdesc_size : Z; bdesc_c : Z
}.

Record gxio_mpipe_edesc_t := Build_edesc {
  bound : Z; hwb : Z; xfer_size : Z;
  va : Z; stack_idx : Z; inst : Z; size : Z; c : Z
}.

(** [gxio_mpipe_edesc_t edesc = { 0 }]. *)
Definition edesc_zero : gxio_mpipe_edesc_t :=
  {| bound := 0; hwb := 0; xfer_size := 0;
     va := 0; stack_idx := 0; inst := 0; size := 0; c := 0 |}.

(** Sets 'va', 'stack_idx', 'inst', 'hwb', 'size' and 'c'. *)
Definition gxio_mpipe_edesc_set_bdesc
    (edesc : gxio_mpipe_edesc_t) (bdesc : gxio_mpipe_bdesc_t)
    : gxio_mpipe_edesc_t :=
  {| bound := bound edesc; xfer_size := xfer_size edesc;
     va := bdesc_va bdesc; stack_idx := bdesc_stack_idx bdesc;
     inst := bdesc_inst bdesc; hwb := bdesc_hwb bdesc;
     size := bdesc_size bdesc; c := bdesc_c bdesc |}.

(** *** buffer.hpp: the buffer cursor *)

(** Modelled from the spec: [buffer_cursor_t] is declared in buffer.hpp,
    which is not part of the sources at hand.  The cursor refers to the
    buffer descriptor it writes into and carries a write offset and the
    total capacity of the buffer. *)
Record buffer_cursor_t := Build_cursor {
  cursor_bdesc : gxio_mpipe_bdesc_t;
  offset : Z;
  capacity : Z
}.

(** Modelled from the spec: [buffer_cursor_t(&bdesc, size)], a cursor over
    a new buffer, with capacity [size] and nothing written yet. *)
Definition buffer_cursor (bdesc : gxio_mpipe_bdesc_t) (size : Z)
    : buffer_cursor_t :=
  {| cursor_bdesc := bdesc; offset := 0; capacity := size |}.

(** Address of the next byte the cursor writes. *)
Definition cursor_ptr (cursor : buffer_cursor_t) : Z :=
  bdesc_va (cursor_bdesc cursor) + offset cursor.

(** The bytes [lo, hi) of the buffer. *)
Definition region := (Z * Z)%type.

(** Modelled from the spec: what [write_with<H>] reserves, [sizeof(H)]
    bytes at the current offset. *)
Definition reserve (sizeof_H : nat) (cursor : buffer_cursor_t) : region :=
  (offset cursor, offset cursor + Z.of_nat sizeof_H).

(** Modelled from the spec: [cursor.write_with<H>(writer)] reserves
    [sizeof(H)] bytes at the current offset, invokes [writer] with a
    pointer to that region of the buffer, advances the offset by
    [sizeof(H)] and returns the advanced cursor.  No bound is checked. *)
Definition write_with (sizeof_H : nat) (writer : Z -> mem -> mem)
    (cursor : buffer_cursor_t) (m : mem) : buffer_cursor_t * mem :=
  ({| cursor_bdesc := cursor_bdesc cursor;
      offset := snd (reserve sizeof_H cursor);
      capacity := capacity cursor |},
   writer (cursor_ptr cursor) m).

(** A chain of [write_with] calls, [cursor.write_with<H1>(w1)
    .write_with<H2>(w2)...], together with the regions it reserved. *)
Fixpoint write_chain (calls : list (nat * (Z -> mem -> mem)))
    (cursor : buffer_cursor_t) (m : mem)
    : list region * buffer_cursor_t * mem :=
  match calls with
  | [] => ([], cursor, m)
  | (sizeof_H, writer) :: calls' =>
      let '(cursor', m') := write_with sizeof_H writer cursor m in
      let '(regions, cursor'', m'') := write_chain calls' cursor' m' in
      (reserve sizeof_H cursor :: regions, cursor'', m'')
  end.

(** *** ethernet.hpp *)

Definition BROADCAST_ETHER_ADDR : ether_addr :=
  {| octet0 := 0xFF; octet1 := 0xFF; octet2 := 0xFF;
     octet3 := 0xFF; octet4 := 0xFF; octet5 := 0xFF |}.

(** [size_t] arithmetic (64 bits on the TILE-Gx). *)
Definition SIZE_MODULUS : Z := 2 ^ 64.
Definition size_add (a b : Z) : Z := (a + b) mod SIZE_MODULUS.

Section Ethernet.
(** Host byte order of the build. *)
Context (e : endianness).

(** The collaborators of mpipe.hpp: the state of the buffer stacks, the
    error an allocation raises, and the allocator itself, which either
    throws or returns the descriptor of a buffer. *)
Context {pool exn : Type}.
Context (mpipe_alloc_buffer :
           pool -> Z -> (exn + gxio_mpipe_bdesc_t) * pool).

(** [std::bad_function_call], thrown by the call of an empty
    [std::function]. *)
Context (bad_function_call : exn).

(** [function<void(buffer_cursor_t)>]: empty, or holding a target which,
    called on a cursor, writes memory and then returns or throws. *)
Inductive std_function :=
  | empty_function
  | target (f : buffer_cursor_t -> mem -> (exn + unit) * mem).

(** [payload_writer(cursor)]. *)
Definition call (payload_writer : std_function) (cursor : buffer_cursor_t)
    (m : mem) : (exn + unit) * mem :=
  match payload_writer with
  | empty_function => (inl bad_function_call, m)
  | target f => f cursor m
  end.

(** The fields of [mpipe_env_t] the frame composer uses. *)
Record mpipe_env_t := Build_mpipe_env {
  link_addr : ether_addr;
  equeue : list gxio_mpipe_edesc_t;
  buffers : pool
}.

(** What a call can change: the environment, the memory of the buffers
    and the debug output. *)
Record world := Build_world {
  mpipe_env : mpipe_env_t;
  memory : mem;
  debug_out : list (Z * ether_addr * Z)
}.

(** Computations that change the world and either return or throw. *)
Definition M (A : Type) : Type := world -> (exn + A) * world.

#[local] Instance M_ret : MRet M := fun A a w => (inr a, w).
#[local] Instance M_bind : MBind M := fun A B k ma w =>
  match ma w with
  | (inr a, w') => k a w'
  | (inl err, w') => (inl err, w')
  end.

Definition ETH_DEBUG (frame_size : Z) (dst : ether_addr) (ether_type : Z)
    : M unit :=
  fun w =>
    (inr (),
     {| mpipe_env := mpipe_env w; memory := memory w;
        debug_out := debug_out w ++ [(frame_size, dst, ether_type)] |}).

Definition alloc_buffer (size : Z) : M gxio_mpipe_bdesc_t :=
  fun w =>
    let '(r, buffers') := mpipe_alloc_buffer (buffers (mpipe_env w)) size in
    (r,
     {| mpipe_env :=
          {| link_addr := link_addr (mpipe_env w);
             equeue := equeue (mpipe_env w);
             buffers := buffers' |};
        memory := memory w; debug_out := debug_out w |}).

(** [gxio_mpipe_equeue_put(&(mpipe_env->equeue), edesc)]. *)
Definition gxio_mpipe_equeue_put (edesc : gxio_mpipe_edesc_t) : M unit :=
  fun w =>
    (inr (),
     {| mpipe_env :=
          {| link_addr := link_addr (mpipe_env w);
             equeue := equeue (mpipe_env w) ++ [edesc];
             buffers := buffers (mpipe_env w) |};
        memory := memory w; debug_out := debug_out w |}).

(** Runs code that only writes memory. *)
Definition on_memory {A : Type} (f : mem -> A * mem) : M A :=
  fun w =>
    let '(a, m') := f (memory w) in
    (inr a,
     {| mpipe_env := mpipe_env w; memory := m';
        debug_out := debug_out w |}).

(** Runs code that writes memory and may throw. *)
Definition on_memory_throwing {A : Type} (f : mem -> (exn + A) * mem)
    : M A :=
  fun w =>
    let '(r, m') := f (memory w) in
    (r,
     {| mpipe_env := mpipe_env w; memory := m';
        debug_out := debug_out w |}).

(** Writes the Ethernet header after the given buffer cursor.
    'dst' and 'ether_type' must be in network byte order. *)
Definition _ethernet_write_header (env : mpipe_env_t)
    (cursor : buffer_cursor_t) (dst : ether_addr) (ether_type : Z)
    (m : mem) : buffer_cursor_t * mem :=
  write_with sizeof_ether_header
    (fun hdr m =>
       let src := link_addr env in
       let m := mempcpy (hdr + offsetof_ether_dhost)
                  (ether_addr_octet dst) sizeof_ether_addr m in
       let m := mempcpy (hdr + offsetof_ether_shost)
                  (ether_addr_octet src) sizeof_ether_addr m in
       store_bytes (hdr + offsetof_ether_type)
         (object_bytes e 2 ether_type) m)
    cursor m.

(** Pushes the given Ethernet frame with its payload on the egress queue
    using the given function to generate the payload.
    'dst' and 'ether_type' must be in network byte order. *)
Definition ethernet_send_frame (payload_size : Z) (dst : ether_addr)
    (ether_type : Z) (payload_writer : std_function)
    : M unit :=
  let headers_size := Z.of_nat sizeof_ether_header in
  let frame_size := size_add headers_size payload_size in
  ETH_DEBUG frame_size dst ether_type ;;
  (* Writes the header and the payload. *)
  bdesc ← alloc_buffer frame_size ;
  let cursor := buffer_cursor bdesc frame_size in
  cursor ← (fun w =>
    on_memory (_ethernet_write_header (mpipe_env w) cursor dst ether_type)
      w) ;
  on_memory_throwing (call payload_writer cursor) ;;
  (* Creates the egress descriptor. *)
  let edesc := edesc_zero in
  let edesc :=
    {| bound := 1; hwb := hwb edesc; xfer_size := xfer_size edesc;
       va := va edesc; stack_idx := stack_idx edesc; inst := inst edesc;
       size := size edesc; c := c edesc |} in
  let edesc :=
    {| bound := bound edesc; hwb := 1; xfer_size := frame_size;
       va := va edesc; stack_idx := stack_idx edesc; inst := inst edesc;
       size := size edesc; c := c edesc |} in
  let edesc := gxio_mpipe_edesc_set_bdesc edesc bdesc in
  gxio_mpipe_equeue_put edesc.

(** The frames handed to the hardware: for each descriptor of the egress
    queue, the [xfer_size] bytes at its address. *)
Definition submitted_frames (w : world) : list (list Z) :=
  map (fun edesc => load_bytes (memory w) (va edesc)
                      (Z.to_nat (xfer_size edesc)))
      (equeue (mpipe_env w)).
End Ethernet.

(** *** Collaborators and inputs to run the frame composer on *)

(** A buffer stack of the mPIPE: buffers of one size, popped on
    allocation; the allocation throws when the request is larger than the
    buffers of the stack or when the stack is empty. *)
Definition stack_alloc (buffer_size : Z) (stack : list gxio_mpipe_bdesc_t)
    (size : Z) : (string + gxio_mpipe_bdesc_t) * list gxio_mpipe_bdesc_t :=
  if size <=? buffer_size then
    match stack with
    | bdesc :: stack' => (inr bdesc, stack')
    | [] => (inl "no buffer left on the stack", [])
    end
  else (inl "no buffer stack for this size", stack).

Definition example_bdesc : gxio_mpipe_bdesc_t :=
  {| bdesc_va := 0x10000; bdesc_stack_idx := 0; bdesc_inst := 0;
     bdesc_hwb := 1; bdesc_size := 4; bdesc_c := 0 |}.

(** A second buffer, which the hardware is not to release by itself. *)
Definition example_bdesc2 : gxio_mpipe_bdesc_t :=
  {| bdesc_va := 0x10800; bdesc_stack_idx := 0; bdesc_inst := 0;
     bdesc_hwb := 0; bdesc_size := 4; bdesc_c := 0 |}.

Definition example_link_addr : ether_addr :=
  {| octet0 := 0x11; octet1 := 0x22; octet2 := 0x33;
     octet3 := 0x44; octet4 := 0x55; octet5 := 0x66 |}.

Definition example_dst : ether_addr :=
  {| octet0 := 0xAA; octet1 := 0xBB; octet2 := 0xCC;
     octet3 := 0xDD; octet4 := 0xEE; octet5 := 0xFF |}.

Definition example_world (stack : list gxio_mpipe_bdesc_t)
    : @world (list gxio_mpipe_bdesc_t) :=
  {| mpipe_env :=
       {| link_addr := example_link_addr; equeue := []; buffers := stack |};
     memory := fun _ => 0;
     debug_out := [] |}.

(** A world in which six bytes of memory at [g] hold the broadcast
    address. *)
Definition broadcast_world (g : Z) (stack : list gxio_mpipe_bdesc_t)
    : @world (list gxio_mpipe_bdesc_t) :=
  {| mpipe_env :=
       {| link_addr := example_link_addr; equeue := []; buffers := stack |};
     memory :=
       store_bytes g (ether_addr_octet BROADCAST_ETHER_ADDR) (fun _ => 0);
     debug_out := [] |}.

(** A payload writer that copies [payload] through the cursor, and one
    that writes nothing. *)
Definition copy_payload (payload : list Z) : @std_function string :=
  target
    (fun cursor m =>
       (inr (),
        (write_with (length payload)
           (fun ptr m => store_bytes ptr payload m) cursor m).2)).

Definition no_payload : @std_function string :=
  target (fun _ m => (inr (), m)).

(** A payload writer that throws before it writes anything, and one that
    clears the first byte of the buffer its cursor refers to. *)
Definition failing_payload : @std_function string :=
  target (fun _ m => (inl "no payload", m)).

Definition clear_first_byte : @std_function string :=
  target
    (fun cursor m =>
       (inr (), store_byte (bdesc_va (cursor_bdesc cursor)) 0 m)).

(** The frame composer with these collaborators. *)
Definition example_send_frame (e : endianness) (payload_size : Z)
    (dst : ether_addr) (ether_type : Z)
    (payload_writer : @std_function string)
    (w : @world (list gxio_mpipe_bdesc_t))
    : (string + unit) * @world (list gxio_mpipe_bdesc_t) :=
  ethernet_send_frame e (stack_alloc 1664) "bad_function_call"
    payload_size dst ether_type payload_writer w.

(** ** Part II: properties *)

Example bswap_16_0800 : bswap_16 0x0800 = 0x0008.
Proof. reflexivity. Qed.

Example change_endian_example_4 :
  _change_endian LittleEndian 4 0x11223344 = 0x44332211.
Proof. reflexivity. Qed.

Example htonl_ex : htonl LittleEndian 0x11223344 = 0x44332211.
Proof. reflexivity. Qed.

Example change_endian_example_3 :
  _change_endian LittleEndian 3 0x112233 = 0x332211.
Proof. reflexivity. Qed.

(** *** Bytes of an integer *)

Lemma length_le_bytes n v : length (le_bytes n v) = n.
Proof. revert v; induction n as [|n IH]; intros v; simpl; [done|by rewrite IH]. Qed.

Lemma Forall_le_bytes n v : Forall is_byte (le_bytes n v).
Proof.
  revert v; induction n as [|n IH]; intros v; simpl; constructor; [|done].
  unfold is_byte. apply Z.mod_pos_bound. lia.
Qed.

Lemma pow_256_succ (n : nat) : 2 ^ (8 * Z.of_nat (S n)) = 256 * 2 ^ (8 * Z.of_nat n).
Proof.
  replace (8 * Z.of_nat (S n)) with (8 + 8 * Z.of_nat n) by lia.
  rewrite Z.pow_add_r by lia. reflexivity.
Qed.

Lemma le_value_le_bytes n v :
  0 <= v < 2 ^ (8 * Z.of_nat n) -> le_value (le_bytes n v) = v.
Proof.
  revert v; induction n as [|n IH]; intros v Hv.
  - simpl in *. lia.
  - rewrite pow_256_succ in Hv. cbn [le_bytes le_value].
    rewrite IH.
    + pose proof (Z.div_mod v 256). lia.
    + split; [apply Z.div_pos; lia|].
      apply Z.div_lt_upper_bound; lia.
Qed.

Lemma le_value_range bytes :
  Forall is_byte bytes ->
  0 <= le_value bytes < 2 ^ (8 * Z.of_nat (length bytes)).
Proof.
  induction 1 as [|b bytes Hb _ IH]; [simpl; lia|].
  cbn [length le_value]. rewrite pow_256_succ. unfold is_byte in Hb. lia.
Qed.

Lemma le_bytes_le_value bytes :
  Forall is_byte bytes -> le_bytes (length bytes) (le_value bytes) = bytes.
Proof.
  induction 1 as [|b bytes Hb _ IH]; [done|].
  unfold is_byte in Hb. cbn [length le_bytes le_value].
  replace (b + 256 * le_value bytes) with (b + le_value bytes * 256) by lia.
  f_equal.
  - rewrite Z.mod_add by lia. apply Z.mod_small; lia.
  - rewrite Z.div_add by lia. rewrite Z.div_small by lia. exact IH.
Qed.

(** *** The swapping loop reverses the bytes *)

Lemma swap_lookup (i j k : nat) (l : list Z) :
  (i < length l)%nat -> (j < length l)%nat ->
  swap i j l !! k =
    if decide (k = j) then l !! i
    else if decide (k = i) then l !! j else l !! k.
Proof.
  intros Hi Hj. unfold swap.
  destruct (lookup_lt_is_Some_2 l i Hi) as [a Ha].
  destruct (lookup_lt_is_Some_2 l j Hj) as [b Hb].
  rewrite Ha, Hb.
  destruct (decide (k = j)) as [->|Hkj].
  - rewrite list_lookup_insert_eq; [done|]. by rewrite length_insert.
  - rewrite list_lookup_insert_ne by done.
    destruct (decide (k = i)) as [->|Hki].
    + by rewrite list_lookup_insert_eq.
    + by rewrite list_lookup_insert_ne.
Qed.

Lemma length_swap (i j : nat) (l : list Z) : length (swap i j l) = length l.
Proof.
  unfold swap. destruct (l !! i), (l !! j); try done.
  by rewrite !length_insert.
Qed.

Lemma swap_loop_lookup (size remaining i j : nat) (l : list Z) :
  length l = size -> (i + remaining <= size / 2)%nat ->
  swap_loop size remaining i l !! j =
    if decide ((i <= j < i + remaining)%nat
               \/ (size - i - remaining <= j < size - i)%nat)
    then l !! (size - 1 - j)%nat else l !! j.
Proof.
  revert i l. induction remaining as [|r IH]; intros i l Hlen Hle.
  - simpl. destruct (decide _) as [H|H]; [lia|done].
  - assert (2 * (size / 2) <= size)%nat as Hhalf
      by (apply Nat.Div0.mul_div_le).
    cbn [swap_loop]. rewrite IH by (rewrite ?length_swap; lia).
    rewrite !swap_lookup by lia.
    repeat destruct (decide _); try lia; try done; f_equal; lia.
Qed.

Lemma swap_loop_reverse (l : list Z) :
  swap_loop (length l) (length l / 2) 0 l = reverse l.
Proof.
  apply list_eq; intros j.
  assert (2 * (length l / 2) <= length l)%nat as Hhalf
    by (apply Nat.Div0.mul_div_le).
  assert (length l < 2 * (length l / 2) + 2)%nat as Hhalf'.
  { pose proof (Nat.div_mod_eq (length l) 2) as Hdm.
    pose proof (Nat.mod_upper_bound (length l) 2). lia. }
  rewrite swap_loop_lookup by lia.
  destruct (decide (j < length l)%nat) as [Hj|Hj].
  - rewrite reverse_lookup by done.
    destruct (decide _) as [H|H].
    + f_equal; lia.
    + assert (length l - S j = j)%nat as -> by lia. done.
  - rewrite (lookup_ge_None_2 (reverse l)) by (rewrite length_reverse; lia).
    destruct (decide _) as [H|H]; [lia|].
    apply lookup_ge_None_2; lia.
Qed.

Lemma change_endian_little size value :
  _change_endian LittleEndian size value
  = le_value (reverse (le_bytes size value)).
Proof.
  unfold _change_endian.
  rewrite <- (length_le_bytes size value) at 1 2.
  by rewrite swap_loop_reverse.
Qed.

(** *** The platform primitives swap bytes too *)

Lemma testbit_small a k n :
  0 <= k -> 0 <= a < 2 ^ k -> k <= n -> Z.testbit a n = false.
Proof.
  intros Hk Ha Hn. rewrite <- (Z.mod_small a (2 ^ k)) by done.
  apply Z.mod_pow2_bits_high. lia.
Qed.

Lemma lor_shiftl_add a b k :
  0 <= k -> 0 <= a < 2 ^ k -> Z.lor a (Z.shiftl b k) = a + b * 2 ^ k.
Proof.
  intros Hk Ha. rewrite <- Z.shiftl_mul_pow2 by done.
  symmetry. apply Z.add_nocarry_lor.
  apply Z.bits_inj'; intros n Hn.
  rewrite Z.land_spec, Z.bits_0, Z.shiftl_spec by done.
  destruct (decide (n < k)) as [Hlt|Hge].
  - rewrite (Z.testbit_neg_r b) by lia. apply andb_false_r.
  - rewrite (testbit_small a k n) by lia. done.
Qed.

Lemma land_byte x : Z.land x 255 = x mod 256.
Proof. change 255 with (Z.ones 8). by rewrite Z.land_ones. Qed.

Lemma land_shifted_byte x k :
  0 <= k ->
  Z.land x (Z.shiftl 255 k) = Z.shiftl (Z.land (Z.shiftr x k) 255) k.
Proof.
  intros Hk. apply Z.bits_inj'; intros n Hn.
  rewrite Z.land_spec, !Z.shiftl_spec by done.
  destruct (decide (n < k)) as [Hlt|Hge].
  - rewrite !(Z.testbit_neg_r _ (n - k)) by lia. apply andb_false_r.
  - rewrite Z.land_spec, Z.shiftr_spec by lia.
    by replace (n - k + k) with n by lia.
Qed.

Lemma byte_digit_bound x k : 0 <= (x / k) mod 256 < 2 ^ 8.
Proof. apply Z.mod_pos_bound. lia. Qed.

Lemma bswap_16_bytes x : bswap_16 x = le_value (reverse (le_bytes 2 x)).
Proof.
  unfold bswap_16. rewrite !land_byte, Z.shiftr_div_pow2 by lia.
  rewrite lor_shiftl_add by (try apply byte_digit_bound; lia).
  cbn [le_bytes reverse rev_append le_value].
  change (2 ^ 8) with 256. lia.
Qed.

Lemma bswap_32_bytes x : bswap_32 x = le_value (reverse (le_bytes 4 x)).
Proof.
  unfold bswap_32.
  change 0xff000000 with (Z.shiftl 255 24).
  change 0x00ff0000 with (Z.shiftl 255 16).
  change 0x0000ff00 with (Z.shiftl 255 8).
  rewrite !land_shifted_byte by lia.
  rewrite !Z.shiftl_shiftl, !Z.shiftr_shiftl_l by lia.
  rewrite !land_byte, !Z.shiftr_div_pow2 by lia.
  change (24 - 24) with 0. change (16 - 8) with 8. change (8 + 8) with 16.
  rewrite Z.shiftl_0_r.
  pose proof (byte_digit_bound x (2 ^ 24)) as Hb3.
  pose proof (byte_digit_bound x (2 ^ 16)) as Hb2.
  pose proof (byte_digit_bound x (2 ^ 8)) as Hb1.
  pose proof (byte_digit_bound x 1) as Hb0. rewrite Z.div_1_r in Hb0.
  rewrite (lor_shiftl_add _ _ 8) by lia.
  rewrite (lor_shiftl_add _ _ 16) by lia.
  rewrite (lor_shiftl_add _ _ 24) by lia.
  cbn [le_bytes reverse rev_append le_value].
  rewrite !Z.div_div by lia.
  change (2 ^ 8) with 256. change (2 ^ 16) with 65536.
  change (2 ^ 24) with 16777216. change (256 * 256) with 65536.
  change (256 * 65536) with 16777216. lia.
Qed.

(** *** Conversions are involutions on representable values *)

Lemma Forall_reverse_le_bytes n v : Forall is_byte (reverse (le_bytes n v)).
Proof. apply Forall_reverse, Forall_le_bytes. Qed.

Lemma swapped_bytes n v :
  le_bytes n (le_value (reverse (le_bytes n v))) = reverse (le_bytes n v).
Proof.
  rewrite <- (length_le_bytes n v) at 1. rewrite <- length_reverse.
  apply le_bytes_le_value, Forall_reverse_le_bytes.
Qed.

Lemma swapped_involutive n v :
  0 <= v < 2 ^ (8 * Z.of_nat n) ->
  le_value (reverse (le_bytes n (le_value (reverse (le_bytes n v))))) = v.
Proof.
  intros Hv. rewrite swapped_bytes, reverse_involutive.
  by apply le_value_le_bytes.
Qed.

Lemma change_endian_involutive e n v :
  0 <= v < 2 ^ (8 * Z.of_nat n) ->
  _change_endian e n (_change_endian e n v) = v.
Proof.
  intros Hv. destruct e; [|done].
  rewrite !change_endian_little. by apply swapped_involutive.
Qed.

Lemma to_host_to_network e T v :
  representable T v -> to_host e T (to_network e T v) = v.
Proof.
  unfold representable, modulus. intros Hv.
  destruct T as [| |n]; cbn [to_host to_network sizeof] in *.
  - destruct e; [|done]. cbn [htons ntohs].
    rewrite !bswap_16_bytes. by apply swapped_involutive.
  - destruct e; [|done]. cbn [htonl ntohl].
    rewrite !bswap_32_bytes. by apply swapped_involutive.
  - by apply change_endian_involutive.
Qed.

Lemma to_network_inj e T a b :
  representable T a -> representable T b ->
  to_network e T a = to_network e T b -> a = b.
Proof.
  intros Ha Hb Heq.
  rewrite <- (to_host_to_network e T a), <- (to_host_to_network e T b) by done.
  by rewrite Heq.
Qed.

(** *** Properties of [net_t] *)

Lemma host_of_host e T v : representable T v -> host e (of_host e T v) = v.
Proof. apply to_host_to_network. Qed.

Lemma representable_convert T z : representable T (convert T z).
Proof.
  unfold representable, convert, modulus.
  apply Z.mod_pos_bound. apply Z.pow_pos_nonneg; lia.
Qed.

Lemma eq_net_net_true {T} (a b : net_t T) :
  eq_net_net a b = true <-> net a = net b.
Proof. unfold eq_net_net. apply Z.eqb_eq. Qed.

(** C2: for every representable host-order value [v] of a supported
    width (16 bits, 32 bits, or any other size through the generic
    algorithm) and either host byte order, constructing a [net_t] from [v]
    and reading it back through [host()] returns [v]. *)
Theorem net_t_round_trip (e : endianness) (T : host_t) (v : Z) :
  representable T v -> host e (of_host e T v) = v.
Proof. apply host_of_host. Qed.

Lemma net_t_round_trip_witness :
  representable uint32_t 0xC0A80001
  /\ host LittleEndian (of_host LittleEndian uint32_t 0xC0A80001) = 0xC0A80001.
Proof.
  split; [unfold representable, modulus; simpl; lia|].
  apply (net_t_round_trip LittleEndian uint32_t 0xC0A80001).
  unfold representable, modulus; simpl; lia.
Defined.

(** C3: for all host values [a] and [b], [net_t(a) == net_t(b)] holds if
    and only if [a = b], and the mixed comparisons [net_t(a) == a] and
    [a == net_t(a)] are always true (their negations [!=] always false). *)
Theorem net_t_equality_consistent (e : endianness) (T : host_t) (a b : Z) :
  representable T a -> representable T b ->
  (eq_net_net (of_host e T a) (of_host e T b) = true <-> a = b)
  /\ (ne_net_net (of_host e T a) (of_host e T b) = false <-> a = b)
  /\ eq_net_host e (of_host e T a) a = true
  /\ eq_host_net e a (of_host e T a) = true
  /\ ne_net_host e (of_host e T a) a = false
  /\ ne_host_net e a (of_host e T a) = false.
Proof.
  intros Ha Hb.
  assert (eq_net_net (of_host e T a) (of_host e T b) = true <-> a = b) as Heq.
  { rewrite eq_net_net_true. cbn [net of_host]. split.
    - by apply to_network_inj.
    - by intros ->. }
  unfold ne_net_net, eq_net_host, eq_host_net, ne_net_host, ne_host_net.
  rewrite host_of_host by done. rewrite Z.eqb_refl.
  split; [exact Heq|]. split; [|done].
  rewrite negb_false_iff. exact Heq.
Qed.

Lemma net_t_equality_consistent_witness :
  (eq_net_net (of_host LittleEndian uint16_t 0x0800)
              (of_host LittleEndian uint16_t 0x0806) = true
   <-> 0x0800 = 0x0806)
  /\ eq_net_host LittleEndian (of_host LittleEndian uint16_t 0x0800) 0x0800
     = true.
Proof.
  assert (representable uint16_t 0x0800) as Ha
    by (unfold representable, modulus; simpl; lia).
  assert (representable uint16_t 0x0806) as Hb
    by (unfold representable, modulus; simpl; lia).
  pose proof (net_t_equality_consistent LittleEndian uint16_t
                0x0800 0x0806 Ha Hb) as (Hiff & _ & Hmixed & _).
  split; [exact Hiff|exact Hmixed].
Defined.

(** C4: for all host values [a] and [b], [net_t(a) + net_t(b)] equals
    [net_t(a + b)] and [net_t(a) - net_t(b)] equals [net_t(a - b)], where
    the host-side sum and difference wrap around at the width of the type;
    read back in host order the results are [(a + b) mod 2^w] and
    [(a - b) mod 2^w].  The mixed operators agree with them. *)
Theorem net_t_arithmetic (e : endianness) (T : host_t) (a b : Z) :
  representable T a -> representable T b ->
  eq_net_net (add_net_net e (of_host e T a) (of_host e T b))
             (of_host e T (convert T (a + b))) = true
  /\ eq_net_net (sub_net_net e (of_host e T a) (of_host e T b))
                (of_host e T (convert T (a - b))) = true
  /\ host e (add_net_net e (of_host e T a) (of_host e T b))
     = (a + b) mod modulus T
  /\ host e (sub_net_net e (of_host e T a) (of_host e T b))
     = (a - b) mod modulus T
  /\ add_net_host e (of_host e T a) b
     = add_net_net e (of_host e T a) (of_host e T b)
  /\ add_host_net e a (of_host e T b)
     = add_net_net e (of_host e T a) (of_host e T b)
  /\ sub_net_host e (of_host e T a) b
     = sub_net_net e (of_host e T a) (of_host e T b)
  /\ sub_host_net e a (of_host e T b)
     = sub_net_net e (of_host e T a) (of_host e T b).
Proof.
  intros Ha Hb.
  unfold add_net_net, sub_net_net, add_net_host, add_host_net,
    sub_net_host, sub_host_net.
  rewrite !(host_of_host e T a), !(host_of_host e T b) by done.
  rewrite !host_of_host by apply representable_convert.
  repeat split; try done; by apply eq_net_net_true.
Qed.

Lemma net_t_arithmetic_witness :
  eq_net_net
    (add_net_net LittleEndian (of_host LittleEndian uint16_t 0xFFFF)
                              (of_host LittleEndian uint16_t 0x0002))
    (of_host LittleEndian uint16_t (convert uint16_t (0xFFFF + 0x0002)))
  = true
  /\ host LittleEndian
       (sub_net_net LittleEndian (of_host LittleEndian uint16_t 0x0001)
                                 (of_host LittleEndian uint16_t 0x0002))
     = (0x0001 - 0x0002) mod modulus uint16_t.
Proof.
  assert (forall v, 0 <= v < 65536 -> representable uint16_t v) as Hr
    by (intros v Hv; unfold representable, modulus; simpl; lia).
  split.
  - apply (net_t_arithmetic LittleEndian uint16_t 0xFFFF 0x0002);
      apply Hr; lia.
  - apply (net_t_arithmetic LittleEndian uint16_t 0x0001 0x0002);
      apply Hr; lia.
Defined.

(** *** Properties of [change_endian_t] *)

Lemma change_endian_2 e v : _change_endian e 2 v = htons e v.
Proof.
  destruct e; [|done]. cbn [htons].
  by rewrite change_endian_little, bswap_16_bytes.
Qed.

Lemma change_endian_4 e v : _change_endian e 4 v = htonl e v.
Proof.
  destruct e; [|done]. cbn [htonl].
  by rewrite change_endian_little, bswap_32_bytes.
Qed.

(** In memory, the result of [to_network] is the value most significant
    byte first, whatever the host byte order. *)
Lemma to_network_network_order e T v :
  object_bytes e (sizeof T) (to_network e T v)
  = reverse (le_bytes (sizeof T) v).
Proof.
  destruct e.
  - destruct T as [| |n]; cbn [to_network sizeof object_bytes htons htonl].
    + rewrite bswap_16_bytes. apply swapped_bytes.
    + rewrite bswap_32_bytes. apply swapped_bytes.
    + rewrite change_endian_little. apply swapped_bytes.
  - by destruct T.
Qed.

(** C5: [to_network] and [to_host] are [htons] and [ntohs] on [uint16_t]
    and [htonl] and [ntohl] on [uint32_t]; on any other width the generic
    algorithm reverses the whole byte sequence of the value on a
    little-endian host and is the identity on a big-endian host (and at
    the sizes 2 and 4 it computes what [htons] and [htonl] do); a byte
    order that is neither little nor big endian stops the build with the
    [#error] diagnostic, while the two known byte orders build. *)
Theorem change_endian_by_width :
  (forall e v,
     to_network e uint16_t v = htons e v /\ to_host e uint16_t v = ntohs e v)
  /\ (forall e v,
        to_network e uint32_t v = htonl e v
        /\ to_host e uint32_t v = ntohl e v)
  /\ (forall n v,
        object_bytes LittleEndian n (to_network LittleEndian (uint_other n) v)
        = reverse (object_bytes LittleEndian n v)
        /\ object_bytes LittleEndian n (to_host LittleEndian (uint_other n) v)
           = reverse (object_bytes LittleEndian n v))
  /\ (forall n v,
        to_network BigEndian (uint_other n) v = v
        /\ to_host BigEndian (uint_other n) v = v)
  /\ (forall e v,
        _change_endian e 2 v = htons e v /\ _change_endian e 4 v = htonl e v)
  /\ (forall byte_order,
        byte_order <> __LITTLE_ENDIAN -> byte_order <> __BIG_ENDIAN ->
        select_byte_order byte_order
        = BuildError "Please set __BYTE_ORDER in <bits/endian.h>")
  /\ select_byte_order __LITTLE_ENDIAN = Built LittleEndian
  /\ select_byte_order __BIG_ENDIAN = Built BigEndian.
Proof.
  split; [done|]. split; [done|].
  split.
  { intros n v. cbn [to_network to_host object_bytes].
    rewrite change_endian_little. split; apply swapped_bytes. }
  split; [done|].
  split.
  { intros e v. split; [apply change_endian_2|apply change_endian_4]. }
  split; [|done].
  intros byte_order Hl Hb. unfold select_byte_order.
  destruct (Z.eqb_spec byte_order __LITTLE_ENDIAN) as [?|_]; [done|].
  destruct (Z.eqb_spec byte_order __BIG_ENDIAN) as [?|_]; done.
Qed.

Lemma change_endian_by_width_witness :
  select_byte_order 3412
  = BuildError "Please set __BYTE_ORDER in <bits/endian.h>"
  /\ object_bytes LittleEndian 8
       (to_network LittleEndian (uint_other 8) 0x0102030405060708)
     = [1; 2; 3; 4; 5; 6; 7; 8].
Proof.
  destruct change_endian_by_width as (_ & _ & Hrev & _ & _ & Herror & _).
  split.
  - apply Herror; unfold __LITTLE_ENDIAN, __BIG_ENDIAN; lia.
  - exact (proj1 (Hrev 8%nat 0x0102030405060708)).
Defined.

(** C6: for every value [n] already in network byte order, [from_net(n)]
    stores [n] with no conversion: its [net] field is exactly [n], for
    every width and independently of the host byte order. *)
Theorem from_net_stores_unchanged (T : host_t) (n : Z) :
  net (from_net T n) = n.
Proof. reflexivity. Qed.

(** C9: the hash of a [net_t] is the hash of the underlying integer type
    applied to the stored [net] field, with no byte order conversion, so
    two [net_t] that compare equal value-to-value ([operator==] or
    [std::equal_to]) have equal hashes. *)
Theorem hash_of_network_bits (T : host_t) (hash_host_t : Z -> Z) :
  (forall value : net_t T, hash hash_host_t value = hash_host_t (net value))
  /\ (forall a b : net_t T,
        eq_net_net a b = true -> hash hash_host_t a = hash hash_host_t b)
  /\ (forall a b : net_t T,
        equal_to a b = true -> hash hash_host_t a = hash hash_host_t b).
Proof.
  split; [done|].
  assert (forall a b : net_t T,
            eq_net_net a b = true -> hash hash_host_t a = hash hash_host_t b)
    as Heq.
  { intros a b Hab. apply eq_net_net_true in Hab. unfold hash.
    by rewrite Hab. }
  split; [exact Heq|]. intros a b Hab. by apply Heq.
Qed.

Lemma hash_of_network_bits_witness :
  hash (fun n => n) (of_host LittleEndian uint16_t 0x0800)
  = hash (fun n => n) (from_net uint16_t 0x0008).
Proof.
  apply (hash_of_network_bits uint16_t (fun n => n)).
  reflexivity.
Defined.

(** *** Memory *)

Lemma store_bytes_outside bytes addr m a :
  a < addr \/ addr + Z.of_nat (length bytes) <= a ->
  store_bytes addr bytes m a = m a.
Proof.
  revert addr m. induction bytes as [|b bytes IH]; intros addr m Ha; [done|].
  cbn [store_bytes length] in *. rewrite IH by lia.
  unfold store_byte. destruct (decide (a = addr)); [lia|done].
Qed.

Lemma load_bytes_ext m1 m2 addr n :
  (forall a, addr <= a < addr + Z.of_nat n -> m1 a = m2 a) ->
  load_bytes m1 addr n = load_bytes m2 addr n.
Proof.
  revert addr. induction n as [|n IH]; intros addr Hm; [done|].
  cbn [load_bytes]. f_equal.
  - apply Hm; lia.
  - apply IH. intros a Ha. apply Hm; lia.
Qed.

Lemma load_store_bytes bytes addr m :
  load_bytes (store_bytes addr bytes m) addr (length bytes) = bytes.
Proof.
  revert addr m. induction bytes as [|b bytes IH]; intros addr m; [done|].
  cbn [store_bytes load_bytes length]. f_equal.
  - rewrite store_bytes_outside by lia.
    unfold store_byte. by destruct (decide (addr = addr)).
  - apply IH.
Qed.

Lemma load_bytes_app m addr n1 n2 :
  load_bytes m addr (n1 + n2)
  = load_bytes m addr n1 ++ load_bytes m (addr + Z.of_nat n1) n2.
Proof.
  revert addr. induction n1 as [|n1 IH]; intros addr.
  - cbn [load_bytes Nat.add app]. f_equal. lia.
  - cbn [load_bytes Nat.add app]. f_equal. rewrite IH. do 2 f_equal. lia.
Qed.

Lemma length_load_bytes m addr n : length (load_bytes m addr n) = n.
Proof.
  revert addr. induction n as [|n IH]; intros addr; [done|].
  cbn [load_bytes length]. by rewrite IH.
Qed.

(** *** The Ethernet header *)

Section EthernetProperties.
Context (e : endianness) {pool exn : Type}.
Context (mpipe_alloc_buffer :
           pool -> Z -> (exn + gxio_mpipe_bdesc_t) * pool).
Context (bad_function_call : exn).

Lemma length_ether_type ether_type :
  length (object_bytes e 2 ether_type) = 2%nat.
Proof.
  unfold object_bytes. destruct e;
    by rewrite ?length_reverse, length_le_bytes.
Qed.

Lemma write_header_cursor (env : @mpipe_env_t pool) cursor dst ether_type m :
  (_ethernet_write_header e env cursor dst ether_type m).1
  = {| cursor_bdesc := cursor_bdesc cursor;
       offset := offset cursor + 14;
       capacity := capacity cursor |}.
Proof. reflexivity. Qed.

Lemma store_header_outside dst src ether_type hdr m a :
  a < hdr \/ hdr + 14 <= a ->
  store_bytes (hdr + 12) (object_bytes e 2 ether_type)
    (store_bytes (hdr + 6) (ether_addr_octet src)
       (store_bytes (hdr + 0) (ether_addr_octet dst) m)) a
  = m a.
Proof.
  intros Ha.
  rewrite (store_bytes_outside (object_bytes e 2 ether_type))
    by (rewrite length_ether_type; lia).
  rewrite (store_bytes_outside (ether_addr_octet src)) by (cbn; lia).
  rewrite (store_bytes_outside (ether_addr_octet dst)) by (cbn; lia).
  reflexivity.
Qed.

Lemma write_header_outside (env : @mpipe_env_t pool) cursor dst ether_type m a :
  a < cursor_ptr cursor \/ cursor_ptr cursor + 14 <= a ->
  (_ethernet_write_header e env cursor dst ether_type m).2 a = m a.
Proof. apply store_header_outside. Qed.

Lemma write_header_bytes (env : @mpipe_env_t pool) cursor dst ether_type m :
  load_bytes (_ethernet_write_header e env cursor dst ether_type m).2
    (cursor_ptr cursor) 14
  = ether_addr_octet dst ++ ether_addr_octet (link_addr env)
    ++ object_bytes e 2 ether_type.
Proof.
  unfold _ethernet_write_header, write_with, mempcpy. cbn [snd].
  unfold offsetof_ether_dhost, offsetof_ether_shost, offsetof_ether_type.
  set (hdr := cursor_ptr cursor). set (src := link_addr env).
  change (take sizeof_ether_addr (ether_addr_octet dst))
    with (ether_addr_octet dst).
  change (take sizeof_ether_addr (ether_addr_octet src))
    with (ether_addr_octet src).
  change 14%nat with (6 + (6 + 2))%nat.
  rewrite (load_bytes_app _ hdr 6 (6 + 2)).
  rewrite (load_bytes_app _ (hdr + Z.of_nat 6) 6 2).
  f_equal; [|f_equal].
  - rewrite Z.add_0_r.
    transitivity
      (load_bytes (store_bytes hdr (ether_addr_octet dst) m) hdr 6);
      [|exact (load_store_bytes (ether_addr_octet dst) hdr m)].
    apply load_bytes_ext. intros a Ha.
    rewrite (store_bytes_outside (object_bytes e 2 ether_type))
      by (rewrite length_ether_type; lia).
    rewrite (store_bytes_outside (ether_addr_octet src)) by (cbn; lia).
    reflexivity.
  - change (Z.of_nat 6) with 6.
    transitivity
      (load_bytes
         (store_bytes (hdr + 6) (ether_addr_octet src)
            (store_bytes (hdr + 0) (ether_addr_octet dst) m))
         (hdr + 6) 6);
      [|exact (load_store_bytes (ether_addr_octet src) (hdr + 6) _)].
    apply load_bytes_ext. intros a Ha.
    rewrite (store_bytes_outside (object_bytes e 2 ether_type))
      by (rewrite length_ether_type; lia).
    reflexivity.
  - replace (hdr + Z.of_nat 6 + Z.of_nat 6) with (hdr + 12) by lia.
    match goal with
    | |- load_bytes (store_bytes _ _ ?m') _ _ = _ =>
        pose proof (load_store_bytes (object_bytes e 2 ether_type)
                      (hdr + 12) m') as Hload
    end.
    rewrite length_ether_type in Hload. exact Hload.
Qed.

(** *** Running [ethernet_send_frame] *)

(** The cursor and the memory the payload writer is called on: the cursor
    just past the header, the memory with the header written. *)
Lemma send_frame_returned (w : world) payload_size dst ether_type
    payload_writer bdesc buffers' m' :
  mpipe_alloc_buffer (buffers (mpipe_env w)) (size_add 14 payload_size)
  = (inr bdesc, buffers') ->
  call bad_function_call payload_writer
    {| cursor_bdesc := bdesc; offset := 14;
       capacity := size_add 14 payload_size |}
    (_ethernet_write_header e (mpipe_env w)
       (buffer_cursor bdesc (size_add 14 payload_size))
       dst ether_type (memory w)).2
  = (inr (), m') ->
  ethernet_send_frame e mpipe_alloc_buffer bad_function_call payload_size
    dst ether_type payload_writer w
  = (inr (),
     {| mpipe_env :=
          {| link_addr := link_addr (mpipe_env w);
             equeue :=
               equeue (mpipe_env w)
               ++ [ {| bound := 1; hwb := bdesc_hwb bdesc;
                       xfer_size := size_add 14 payload_size;
                       va := bdesc_va bdesc;
                       stack_idx := bdesc_stack_idx bdesc;
                       inst := bdesc_inst bdesc;
                       size := bdesc_size bdesc; c := bdesc_c bdesc |} ];
             buffers := buffers' |};
        memory := m';
        debug_out :=
          debug_out w ++ [(size_add 14 payload_size, dst, ether_type)] |}).
Proof.
  intros Halloc Hcall.
  unfold ethernet_send_frame, mbind, M_bind, ETH_DEBUG, alloc_buffer,
    on_memory, on_memory_throwing, gxio_mpipe_equeue_put.
  cbn [mpipe_env memory debug_out buffers link_addr equeue].
  change (Z.of_nat sizeof_ether_header) with 14.
  rewrite Halloc.
  unfold _ethernet_write_header, write_with.
  cbn [mpipe_env memory debug_out buffers link_addr equeue fst snd].
  match goal with
  | |- context [call bad_function_call payload_writer ?cursor ?m] =>
      assert (call bad_function_call payload_writer cursor m
              = (inr (), m')) as Hcall' by exact Hcall;
      rewrite Hcall'
  end.
  reflexivity.
Qed.

Lemma send_frame_writer_threw (w : world) payload_size dst ether_type
    payload_writer bdesc buffers' err m' :
  mpipe_alloc_buffer (buffers (mpipe_env w)) (size_add 14 payload_size)
  = (inr bdesc, buffers') ->
  call bad_function_call payload_writer
    {| cursor_bdesc := bdesc; offset := 14;
       capacity := size_add 14 payload_size |}
    (_ethernet_write_header e (mpipe_env w)
       (buffer_cursor bdesc (size_add 14 payload_size))
       dst ether_type (memory w)).2
  = (inl err, m') ->
  ethernet_send_frame e mpipe_alloc_buffer bad_function_call payload_size
    dst ether_type payload_writer w
  = (inl err,
     {| mpipe_env :=
          {| link_addr := link_addr (mpipe_env w);
             equeue := equeue (mpipe_env w);
             buffers := buffers' |};
        memory := m';
        debug_out :=
          debug_out w ++ [(size_add 14 payload_size, dst, ether_type)] |}).
Proof.
  intros Halloc Hcall.
  unfold ethernet_send_frame, mbind, M_bind, ETH_DEBUG, alloc_buffer,
    on_memory, on_memory_throwing, gxio_mpipe_equeue_put.
  cbn [mpipe_env memory debug_out buffers link_addr equeue].
  change (Z.of_nat sizeof_ether_header) with 14.
  rewrite Halloc.
  unfold _ethernet_write_header, write_with.
  cbn [mpipe_env memory debug_out buffers link_addr equeue fst snd].
  match goal with
  | |- context [call bad_function_call payload_writer ?cursor ?m] =>
      assert (call bad_function_call payload_writer cursor m
              = (inl err, m')) as Hcall' by exact Hcall;
      rewrite Hcall'
  end.
  reflexivity.
Qed.

Lemma send_frame_failed (w : world) payload_size dst ether_type
    payload_writer err buffers' :
  mpipe_alloc_buffer (buffers (mpipe_env w)) (size_add 14 payload_size)
  = (inl err, buffers') ->
  ethernet_send_frame e mpipe_alloc_buffer bad_function_call payload_size
    dst ether_type payload_writer w
  = (inl err,
     {| mpipe_env :=
          {| link_addr := link_addr (mpipe_env w);
             equeue := equeue (mpipe_env w);
             buffers := buffers' |};
        memory := memory w;
        debug_out :=
          debug_out w ++ [(size_add 14 payload_size, dst, ether_type)] |}).
Proof.
  intros Halloc.
  unfold ethernet_send_frame, mbind, M_bind, ETH_DEBUG, alloc_buffer.
  cbn [mpipe_env memory debug_out buffers link_addr equeue].
  change (Z.of_nat sizeof_ether_header) with 14.
  rewrite Halloc. reflexivity.
Qed.
(** C1 (amended): whenever [14 + payload_size] does not wrap around as a
    [size_t], the allocation succeeds, and the payload writer, called on
    the cursor just past the header (on the memory that holds the header),
    returns normally and has left the 14 header bytes as they were,
    [ethernet_send_frame] returns normally and adds one descriptor to the
    egress queue, complete ([bound]), at the address of the allocated
    buffer and of length [14 + payload_size]; the submitted bytes are the
    6 bytes of the destination address, the 6 bytes of the link's source
    address, the 2 bytes of [ether_type] as they lie in memory, then the
    [payload_size] bytes the payload writer left after the header,
    unchanged. *)
Theorem ethernet_frame_format (w : world) (payload_size : Z)
    (dst : ether_addr) (ether_type : Z) (payload_writer : std_function)
    (bdesc : gxio_mpipe_bdesc_t) (buffers' : pool) (m' : mem) :
  0 <= payload_size -> 14 + payload_size < SIZE_MODULUS ->
  mpipe_alloc_buffer (buffers (mpipe_env w)) (14 + payload_size)
  = (inr bdesc, buffers') ->
  call bad_function_call payload_writer
    {| cursor_bdesc := bdesc; offset := 14;
       capacity := 14 + payload_size |}
    (_ethernet_write_header e (mpipe_env w)
       (buffer_cursor bdesc (14 + payload_size))
       dst ether_type (memory w)).2
  = (inr (), m') ->
  (forall a,
     bdesc_va bdesc <= a < bdesc_va bdesc + 14 ->
     m' a
     = (_ethernet_write_header e (mpipe_env w)
          (buffer_cursor bdesc (14 + payload_size))
          dst ether_type (memory w)).2 a) ->
  exists (w' : world) (edesc : gxio_mpipe_edesc_t),
    let header :=
      ether_addr_octet dst ++ ether_addr_octet (link_addr (mpipe_env w))
      ++ object_bytes e 2 ether_type in
    let payload :=
      load_bytes m' (bdesc_va bdesc + 14) (Z.to_nat payload_size) in
    ethernet_send_frame e mpipe_alloc_buffer bad_function_call payload_size
      dst ether_type payload_writer w = (inr (), w')
    /\ memory w' = m'
    /\ equeue (mpipe_env w') = equeue (mpipe_env w) ++ [edesc]
    /\ bound edesc = 1
    /\ va edesc = bdesc_va bdesc
    /\ xfer_size edesc = 14 + payload_size
    /\ last (submitted_frames w') = Some (header ++ payload)
    /\ Z.of_nat (length (header ++ payload)) = 14 + payload_size.
Proof.
  intros Hsize Hwrap Halloc Hcall Hheader.
  assert (size_add 14 payload_size = 14 + payload_size) as Hframe.
  { unfold size_add. apply Z.mod_small. lia. }
  rewrite <- Hframe in Halloc, Hcall.
  pose proof (send_frame_returned w payload_size dst ether_type
                payload_writer bdesc buffers' m' Halloc Hcall) as Hrun.
  rewrite Hframe in Hrun.
  set (cursor0 := buffer_cursor bdesc (14 + payload_size)) in *.
  assert (cursor_ptr cursor0 = bdesc_va bdesc) as Hptr0
    by (unfold cursor_ptr; cbn; lia).
  eexists _, _. cbn zeta. split; [exact Hrun|].
  split; [done|]. split; [done|]. split; [done|]. split; [done|].
  split; [done|].
  split.
  - unfold submitted_frames. cbn [mpipe_env equeue memory].
    rewrite map_app. cbn [map]. rewrite last_snoc. cbn [va xfer_size].
    f_equal.
    replace (Z.to_nat (14 + payload_size))
      with (14 + Z.to_nat payload_size)%nat by lia.
    rewrite load_bytes_app, app_assoc, <- (app_assoc (ether_addr_octet dst)).
    f_equal.
    rewrite <- (write_header_bytes (mpipe_env w) cursor0 dst ether_type
                  (memory w)).
    rewrite Hptr0. apply load_bytes_ext.
    intros a Ha. apply Hheader. lia.
  - rewrite !length_app, length_load_bytes, length_ether_type. cbn. lia.
Qed.

(** C7: if the allocator throws, [ethernet_send_frame] ends with that
    same error for whatever payload size, addresses, ethertype and payload
    writer: no byte of memory is written, no descriptor is added to the
    egress queue (the submitted frames are those of before the call), and
    the caller receives the error of the allocator. *)
Theorem allocation_failure_propagates (w : world) (payload_size : Z)
    (dst : ether_addr) (ether_type : Z) (payload_writer : std_function)
    (err : exn) (buffers' : pool) :
  mpipe_alloc_buffer (buffers (mpipe_env w)) (size_add 14 payload_size)
  = (inl err, buffers') ->
  exists w' : world,
    ethernet_send_frame e mpipe_alloc_buffer bad_function_call payload_size
      dst ether_type payload_writer w = (inl err, w')
    /\ memory w' = memory w
    /\ equeue (mpipe_env w') = equeue (mpipe_env w)
    /\ submitted_frames w' = submitted_frames w
    /\ link_addr (mpipe_env w') = link_addr (mpipe_env w)
    /\ buffers (mpipe_env w') = buffers'.
Proof.
  intros Halloc. eexists. split.
  - by apply send_frame_failed.
  - done.
Qed.
End EthernetProperties.

(** *** The frame composer on concrete inputs *)

(** The frame scenario: destination AA:BB:CC:DD:EE:FF, source
    11:22:33:44:55:66, ethertype 0x0800 in network byte order (the value
    0x0008 on a little-endian host) and the payload 45 00. *)
Lemma ethernet_frame_format_witness :
  exists w',
    ethernet_send_frame LittleEndian (stack_alloc 1664) "bad_function_call"
      2 example_dst 0x0008 (copy_payload [0x45; 0x00])
      (example_world [example_bdesc])
    = (inr (), w')
    /\ last (submitted_frames w')
       = Some [0xAA; 0xBB; 0xCC; 0xDD; 0xEE; 0xFF;
               0x11; 0x22; 0x33; 0x44; 0x55; 0x66;
               0x08; 0x00; 0x45; 0x00].
Proof.
  destruct (ethernet_frame_format LittleEndian (stack_alloc 1664)
              "bad_function_call" (example_world [example_bdesc]) 2
              example_dst 0x0008 (copy_payload [0x45; 0x00])
              example_bdesc []
              (store_bytes (0x10000 + 14) [0x45; 0x00]
                 (_ethernet_write_header LittleEndian
                    (mpipe_env (example_world [example_bdesc]))
                    (buffer_cursor example_bdesc (14 + 2))
                    example_dst 0x0008
                    (memory (example_world [example_bdesc]))).2))
    as (w' & edesc & Hrun & _ & _ & _ & _ & _ & Hlast & _).
  - lia.
  - unfold SIZE_MODULUS. lia.
  - reflexivity.
  - reflexivity.
  - intros a Ha. apply store_bytes_outside.
    change (bdesc_va example_bdesc) with 0x10000 in Ha. lia.
  - exists w'. split; [exact Hrun|]. rewrite Hlast. reflexivity.
Defined.

(** C1 as stated fails in four ways.  When [14 + payload_size] wraps
    around (a payload size of [2^64 - 1]) the code submits 13 bytes; when
    the allocator throws, or the payload writer is empty or throws, the
    call does not return normally and nothing is submitted; and a payload
    writer that writes into the header (here the first byte of the
    buffer) changes the destination address of the submitted frame. *)
Lemma ethernet_frame_claim_fails :
  ~ (exists w' payload,
       example_send_frame LittleEndian (2 ^ 64 - 1) example_dst 0x0008
         no_payload (example_world [example_bdesc]) = (inr (), w')
       /\ Z.of_nat (length payload) = 2 ^ 64 - 1
       /\ last (submitted_frames w')
          = Some (ether_addr_octet example_dst
                  ++ ether_addr_octet example_link_addr
                  ++ object_bytes LittleEndian 2 0x0008 ++ payload))
  /\ ~ (exists w' payload,
          example_send_frame LittleEndian 2 example_dst 0x0008
            (copy_payload [0x45; 0x00]) (example_world []) = (inr (), w')
          /\ Z.of_nat (length payload) = 2
          /\ last (submitted_frames w')
             = Some (ether_addr_octet example_dst
                     ++ ether_addr_octet example_link_addr
                     ++ object_bytes LittleEndian 2 0x0008 ++ payload))
  /\ ~ (exists w' payload,
          example_send_frame LittleEndian 2 example_dst 0x0008
            empty_function (example_world [example_bdesc]) = (inr (), w')
          /\ Z.of_nat (length payload) = 2
          /\ last (submitted_frames w')
             = Some (ether_addr_octet example_dst
                     ++ ether_addr_octet example_link_addr
                     ++ object_bytes LittleEndian 2 0x0008 ++ payload))
  /\ ~ (exists w' payload,
          example_send_frame LittleEndian 2 example_dst 0x0008
            failing_payload (example_world [example_bdesc]) = (inr (), w')
          /\ Z.of_nat (length payload) = 2
          /\ last (submitted_frames w')
             = Some (ether_addr_octet example_dst
                     ++ ether_addr_octet example_link_addr
                     ++ object_bytes LittleEndian 2 0x0008 ++ payload))
  /\ ~ (exists w' payload,
          example_send_frame LittleEndian 2 example_dst 0x0008
            clear_first_byte (example_world [example_bdesc]) = (inr (), w')
          /\ Z.of_nat (length payload) = 2
          /\ last (submitted_frames w')
             = Some (ether_addr_octet example_dst
                     ++ ether_addr_octet example_link_addr
                     ++ object_bytes LittleEndian 2 0x0008 ++ payload)).
Proof.
  unfold example_send_frame.
  split; [|split; [|split; [|split]]].
  - intros (w' & payload & Hrun & _ & Hlast).
    rewrite (send_frame_returned LittleEndian (stack_alloc 1664)
               "bad_function_call" (example_world [example_bdesc])
               (2 ^ 64 - 1) example_dst 0x0008 no_payload example_bdesc []
               _ eq_refl eq_refl) in Hrun.
    injection Hrun as <-.
    apply (f_equal (option_map (@length Z))) in Hlast.
    change (Some 13%nat
            = Some (length ([0xAA; 0xBB; 0xCC; 0xDD; 0xEE; 0xFF;
                             0x11; 0x22; 0x33; 0x44; 0x55; 0x66;
                             0x08; 0x00] ++ payload))) in Hlast.
    injection Hlast as Hlast. rewrite ?length_app in Hlast.
    cbn [length] in Hlast. lia.
  - intros (w' & payload & Hrun & _).
    rewrite (send_frame_failed LittleEndian (stack_alloc 1664)
               "bad_function_call" (example_world []) 2 example_dst 0x0008
               (copy_payload [0x45; 0x00])
               "no buffer left on the stack" [] eq_refl) in Hrun.
    discriminate Hrun.
  - intros (w' & payload & Hrun & _).
    rewrite (send_frame_writer_threw LittleEndian (stack_alloc 1664)
               "bad_function_call" (example_world [example_bdesc]) 2
               example_dst 0x0008 empty_function example_bdesc []
               _ _ eq_refl eq_refl) in Hrun.
    discriminate Hrun.
  - intros (w' & payload & Hrun & _).
    rewrite (send_frame_writer_threw LittleEndian (stack_alloc 1664)
               "bad_function_call" (example_world [example_bdesc]) 2
               example_dst 0x0008 failing_payload example_bdesc []
               _ _ eq_refl eq_refl) in Hrun.
    discriminate Hrun.
  - intros (w' & payload & Hrun & _ & Hlast).
    rewrite (send_frame_returned LittleEndian (stack_alloc 1664)
               "bad_function_call" (example_world [example_bdesc]) 2
               example_dst 0x0008 clear_first_byte example_bdesc []
               _ eq_refl eq_refl) in Hrun.
    injection Hrun as <-.
    apply (f_equal (fun frame => hd 1 <$> frame)) in Hlast.
    change (Some 0 = Some 0xAA) in Hlast.
    discriminate Hlast.
Qed.

Lemma allocation_failure_propagates_witness :
  exists w',
    ethernet_send_frame LittleEndian (stack_alloc 1664) "bad_function_call"
      2 example_dst 0x0008 (copy_payload [0x45; 0x00]) (example_world [])
    = (inl "no buffer left on the stack", w')
    /\ memory w' = memory (example_world [])
    /\ equeue (mpipe_env w') = []
    /\ submitted_frames w' = [].
Proof.
  destruct (allocation_failure_propagates LittleEndian (stack_alloc 1664)
              "bad_function_call" (example_world []) 2 example_dst 0x0008
              (copy_payload [0x45; 0x00]) "no buffer left on the stack" [])
    as (w' & Hrun & Hmem & Hqueue & Hframes & _).
  - reflexivity.
  - exists w'. split; [exact Hrun|]. split; [exact Hmem|].
    split; [exact Hqueue|exact Hframes].
Defined.

Example ethernet_frame_wrapped_length :
  map length
    (submitted_frames
       (example_send_frame LittleEndian (2 ^ 64 - 1) example_dst 0x0008
          no_payload (example_world [example_bdesc])).2)
  = [13%nat].
Proof. reflexivity. Qed.

Example ethernet_frame_empty_writer :
  (example_send_frame LittleEndian 2 example_dst 0x0008 empty_function
     (example_world [example_bdesc])).1 = inl "bad_function_call"
  /\ submitted_frames
       (example_send_frame LittleEndian 2 example_dst 0x0008 empty_function
          (example_world [example_bdesc])).2 = [].
Proof. split; reflexivity. Qed.

Example ethernet_frame_cleared_first_byte :
  submitted_frames
    (example_send_frame LittleEndian 2 example_dst 0x0008 clear_first_byte
       (example_world [example_bdesc])).2
  = [[0x00; 0xBB; 0xCC; 0xDD; 0xEE; 0xFF;
      0x11; 0x22; 0x33; 0x44; 0x55; 0x66;
      0x08; 0x00; 0x00; 0x00]].
Proof. reflexivity. Qed.

(** *** The buffer cursor *)

Lemma sum_list_take_S (l : list nat) (i s : nat) :
  l !! i = Some s ->
  sum_list (take (S i) l) = (sum_list (take i l) + s)%nat.
Proof.
  intros Hi. rewrite (take_S_r l i s Hi), sum_list_with_app. cbn. lia.
Qed.

Lemma sum_list_take_mono (l : list nat) (i j : nat) :
  (i <= j)%nat -> (sum_list (take i l) <= sum_list (take j l))%nat.
Proof.
  revert i j. induction l as [|x l IH]; intros i j Hij.
  - by rewrite !take_nil.
  - destruct i as [|i]; [cbn; lia|]. destruct j as [|j]; [lia|].
    cbn. specialize (IH i j). lia.
Qed.

Lemma sum_list_take_le (l : list nat) (i : nat) :
  (sum_list (take i l) <= sum_list l)%nat.
Proof.
  destruct (decide (i <= length l)%nat) as [Hi|Hi].
  - rewrite <- (take_ge l (length l)) at 2 by done.
    by apply sum_list_take_mono.
  - rewrite take_ge by lia. done.
Qed.

Lemma write_with_offset sizeof_H writer cursor m :
  offset (write_with sizeof_H writer cursor m).1
  = offset cursor + Z.of_nat sizeof_H.
Proof. reflexivity. Qed.

Lemma write_chain_offset calls cursor m :
  offset (write_chain calls cursor m).1.2
  = offset cursor + Z.of_nat (sum_list calls.*1).
Proof.
  revert cursor m. induction calls as [|[sizeof_H writer] calls IH];
    intros cursor m.
  - cbn. lia.
  - cbn [write_chain write_with].
    match goal with
    | |- context [write_chain calls ?c' ?m'] =>
        specialize (IH c' m'); destruct (write_chain calls c' m')
          as [[regions cursor''] m'']
    end.
    cbn in *. lia.
Qed.

Lemma write_chain_regions calls cursor m (i : nat) :
  (write_chain calls cursor m).1.1 !! i
  = (fun s : nat =>
       (offset cursor + Z.of_nat (sum_list (take i calls.*1)),
        offset cursor + Z.of_nat (sum_list (take i calls.*1))
        + Z.of_nat s))
    <$> (calls.*1 !! i).
Proof.
  revert cursor m i. induction calls as [|[sizeof_H writer] calls IH];
    intros cursor m i.
  - done.
  - cbn [write_chain write_with].
    match goal with
    | |- context [write_chain calls ?c' ?m'] =>
        pose proof (IH c' m') as IH';
        destruct (write_chain calls c' m') as [[regions cursor''] m'']
    end.
    unfold reserve in *. cbn [fst snd offset] in *.
    destruct i as [|i].
    + cbn. do 2 f_equal; lia.
    + cbn [fmap list_fmap lookup list_lookup take].
      rewrite IH'.
      destruct (calls.*1 !! i) as [s|]; [|done].
      cbn. do 2 f_equal; lia.
Qed.

Lemma write_chain_cursor calls cursor m :
  (write_chain calls cursor m).1.2
  = {| cursor_bdesc := cursor_bdesc cursor;
       offset := offset cursor + Z.of_nat (sum_list calls.*1);
       capacity := capacity cursor |}.
Proof.
  revert cursor m. induction calls as [|[sizeof_H writer] calls IH];
    intros cursor m.
  - cbn. rewrite Z.add_0_r. by destruct cursor.
  - cbn [write_chain write_with].
    match goal with
    | |- context [write_chain calls ?c' ?m'] =>
        specialize (IH c' m'); destruct (write_chain calls c' m')
          as [[regions cursor''] m'']
    end.
    cbn [fst snd] in *. rewrite IH. unfold reserve.
    cbn [cursor_bdesc offset capacity fst snd fmap list_fmap].
    f_equal. change (sum_list (sizeof_H :: calls.*1))
      with (sizeof_H + sum_list calls.*1)%nat. lia.
Qed.

Lemma write_chain_app calls1 calls2 cursor m :
  (write_chain (calls1 ++ calls2) cursor m).2
  = (write_chain calls2 (write_chain calls1 cursor m).1.2
       (write_chain calls1 cursor m).2).2.
Proof.
  revert cursor m. induction calls1 as [|[sizeof_H writer] calls1 IH];
    intros cursor m; [done|].
  cbn [app write_chain write_with].
  match goal with
  | |- context [write_chain (calls1 ++ calls2) ?c' ?m'] =>
      specialize (IH c' m');
      destruct (write_chain (calls1 ++ calls2) c' m')
        as [[regions cursor''] m''];
      destruct (write_chain calls1 c' m') as [[regions1 cursor1] m1]
  end.
  exact IH.
Qed.

(** A writer that stays inside the [sizeof(H)] bytes it is handed. *)
Lemma write_chain_outside calls cursor m a :
  Forall (fun call : nat * (Z -> mem -> mem) =>
            forall p m0 b,
              b < p \/ p + Z.of_nat call.1 <= b -> call.2 p m0 b = m0 b)
    calls ->
  a < cursor_ptr cursor
  \/ cursor_ptr cursor + Z.of_nat (sum_list calls.*1) <= a ->
  (write_chain calls cursor m).2 a = m a.
Proof.
  intros Hconfined. revert cursor m.
  induction Hconfined as [|[sizeof_H writer] calls Hwriter _ IH];
    intros cursor m Ha; [done|].
  cbn [write_chain write_with].
  match goal with
  | |- context [write_chain calls ?c' ?m'] =>
      specialize (IH c' m');
      destruct (write_chain calls c' m') as [[regions cursor''] m'']
  end.
  cbn [fst snd] in *.
  change (sum_list ((sizeof_H, writer) :: calls).*1)
    with (sizeof_H + sum_list calls.*1)%nat in Ha.
  rewrite IH.
  - apply Hwriter. lia.
  - unfold cursor_ptr, reserve in *. cbn [cursor_bdesc offset snd]. lia.
Qed.

(** C8: a chain of [write_with] calls on a new cursor, reserving the
    sizes [s1 .. sN] whose sum is within the capacity, leaves the offset
    at [s1 + ... + sN]; every call advances the offset by exactly the size
    it reserves; the i-th reserved region starts where the sizes before it
    end and spans its own size; the regions are pairwise disjoint and in
    increasing order (each ends no later than the next ones begin) and lie
    inside the buffer.  The regions are where the writers write: the i-th
    writer is handed the address of the buffer plus the start of the i-th
    region, and the memory after [i + 1] calls is what that writer makes,
    at that address, of the memory after [i] calls.  So when every writer
    stays inside the bytes it is handed, the calls before the i-th leave
    the i-th region as it was, the calls after it leave it as the i-th
    writer made it, and no byte outside the reserved regions changes. *)
Theorem cursor_monotonic (calls : list (nat * (Z -> mem -> mem)))
    (bdesc : gxio_mpipe_bdesc_t) (cap : Z) (m : mem) :
  Z.of_nat (sum_list calls.*1) <= cap ->
  offset (write_chain calls (buffer_cursor bdesc cap) m).1.2
  = Z.of_nat (sum_list calls.*1)
  /\ (forall sizeof_H writer cursor m',
        offset (write_with sizeof_H writer cursor m').1
        = offset cursor + Z.of_nat sizeof_H
        /\ reserve sizeof_H cursor
           = (offset cursor, offset cursor + Z.of_nat sizeof_H))
  /\ length (write_chain calls (buffer_cursor bdesc cap) m).1.1
     = length calls
  /\ (forall (i s : nat),
        calls.*1 !! i = Some s ->
        (write_chain calls (buffer_cursor bdesc cap) m).1.1 !! i
        = Some (Z.of_nat (sum_list (take i calls.*1)),
                Z.of_nat (sum_list (take i calls.*1)) + Z.of_nat s))
  /\ (forall (i j : nat) (ri rj : region),
        (i < j)%nat ->
        (write_chain calls (buffer_cursor bdesc cap) m).1.1 !! i = Some ri ->
        (write_chain calls (buffer_cursor bdesc cap) m).1.1 !! j = Some rj ->
        ri.1 <= ri.2 /\ ri.2 <= rj.1)
  /\ (forall (i : nat) (r : region),
        (write_chain calls (buffer_cursor bdesc cap) m).1.1 !! i = Some r ->
        0 <= r.1 /\ r.1 <= r.2 /\ r.2 <= cap)
  /\ (forall (i s : nat) (writer : Z -> mem -> mem) (r : region),
        calls !! i = Some (s, writer) ->
        (write_chain calls (buffer_cursor bdesc cap) m).1.1 !! i = Some r ->
        cursor_ptr (write_chain (take i calls) (buffer_cursor bdesc cap) m).1.2
        = bdesc_va bdesc + r.1
        /\ cursor_ptr
             (write_chain (take (S i) calls) (buffer_cursor bdesc cap) m).1.2
           = bdesc_va bdesc + r.2
        /\ (write_chain (take (S i) calls) (buffer_cursor bdesc cap) m).2
           = writer (bdesc_va bdesc + r.1)
               (write_chain (take i calls) (buffer_cursor bdesc cap) m).2)
  /\ ((forall (i s : nat) (writer : Z -> mem -> mem),
         calls !! i = Some (s, writer) ->
         forall p m0 a,
           a < p \/ p + Z.of_nat s <= a -> writer p m0 a = m0 a) ->
      (forall (i : nat) (r : region) (a : Z),
         (write_chain calls (buffer_cursor bdesc cap) m).1.1 !! i = Some r ->
         bdesc_va bdesc + r.1 <= a < bdesc_va bdesc + r.2 ->
         (write_chain (take i calls) (buffer_cursor bdesc cap) m).2 a = m a
         /\ (write_chain calls (buffer_cursor bdesc cap) m).2 a
            = (write_chain (take (S i) calls)
                 (buffer_cursor bdesc cap) m).2 a)
      /\ (forall a,
            a < bdesc_va bdesc
            \/ bdesc_va bdesc + Z.of_nat (sum_list calls.*1) <= a ->
            (write_chain calls (buffer_cursor bdesc cap) m).2 a = m a)).
Proof.
  intros Hcap.
  set (cursor0 := buffer_cursor bdesc cap).
  assert (forall (i : nat) (r : region),
            (write_chain calls cursor0 m).1.1 !! i = Some r ->
            exists s : nat,
              calls.*1 !! i = Some s
              /\ r = (Z.of_nat (sum_list (take i calls.*1)),
                      Z.of_nat (sum_list (take i calls.*1)) + Z.of_nat s))
    as Hregion.
  { intros i r. rewrite write_chain_regions.
    destruct (calls.*1 !! i) as [s|]; [|done].
    cbn. intros [= <-]. exists s. split; [done|]. f_equal; lia. }
  assert (forall k : nat,
            cursor_ptr (write_chain (take k calls) cursor0 m).1.2
            = bdesc_va bdesc + Z.of_nat (sum_list (take k calls.*1)))
    as Hptr.
  { intros k. rewrite write_chain_cursor, fmap_take.
    unfold cursor_ptr. cbn [cursor_bdesc offset cursor0 buffer_cursor]. lia. }
  split; [rewrite write_chain_offset; cbn; lia|].
  split; [done|].
  split.
  { apply Nat.le_antisymm.
    - apply Nat.nlt_ge; intros Hlt.
      destruct (lookup_lt_is_Some_2 _ _ Hlt) as [r Hr].
      destruct (Hregion _ _ Hr) as (s & Hs & _).
      apply lookup_lt_Some in Hs. rewrite length_fmap in Hs. lia.
    - apply Nat.nlt_ge; intros Hlt.
      rewrite <- (length_fmap fst) in Hlt.
      destruct (lookup_lt_is_Some_2 _ _ Hlt) as [s Hs].
      remember (write_chain calls cursor0 m).1.1 as regions eqn:Hregions.
      pose proof (write_chain_regions calls cursor0 m (length regions))
        as Hl.
      rewrite <- Hregions, Hs in Hl.
      apply lookup_lt_Some in Hl. exact (Nat.lt_irrefl _ Hl). }
  split.
  { intros i s Hs. rewrite write_chain_regions, Hs. cbn.
    repeat f_equal; lia. }
  split.
  { intros i j ri rj Hij Hi Hj.
    destruct (Hregion _ _ Hi) as (si & Hsi & ->).
    destruct (Hregion _ _ Hj) as (sj & Hsj & ->). cbn [fst snd].
    pose proof (sum_list_take_S _ _ _ Hsi) as HS.
    pose proof (sum_list_take_mono calls.*1 (S i) j). lia. }
  split.
  { intros i r Hi.
    destruct (Hregion _ _ Hi) as (s & Hs & ->). cbn [fst snd].
    pose proof (sum_list_take_S _ _ _ Hs) as HS.
    pose proof (sum_list_take_le calls.*1 (S i)). lia. }
  split.
  { intros i s writer r Hcall Hi.
    destruct (Hregion _ _ Hi) as (s' & Hs & ->). cbn [fst snd].
    assert (s' = s) as ->.
    { rewrite list_lookup_fmap, Hcall in Hs. by injection Hs. }
    pose proof (sum_list_take_S _ _ _ Hs) as HS.
    split; [apply Hptr|]. split; [rewrite Hptr; lia|].
    rewrite (take_S_r calls i (s, writer) Hcall), write_chain_app.
    cbn [write_chain write_with fst snd]. by rewrite Hptr. }
  intros Hconfined.
  assert (Forall (fun call : nat * (Z -> mem -> mem) =>
                    forall p m0 b,
                      b < p \/ p + Z.of_nat call.1 <= b ->
                      call.2 p m0 b = m0 b) calls) as Hall.
  { apply Forall_lookup. intros i [s writer] Hcall. cbn [fst snd].
    by apply (Hconfined i s writer). }
  split.
  - intros i r a Hi Ha.
    destruct (Hregion _ _ Hi) as (s & Hs & ->). cbn [fst snd] in Ha.
    pose proof (sum_list_take_S _ _ _ Hs) as HS.
    split.
    + apply write_chain_outside; [by apply Forall_take|].
      right. rewrite fmap_take.
      unfold cursor_ptr. cbn [cursor_bdesc offset cursor0 buffer_cursor].
      lia.
    + rewrite <- (take_drop (S i) calls) at 1. rewrite write_chain_app.
      apply write_chain_outside; [by apply Forall_drop|].
      left. rewrite Hptr. lia.
  - intros a Ha. apply write_chain_outside; [done|].
    unfold cursor_ptr. cbn [cursor_bdesc offset cursor0 buffer_cursor]. lia.
Qed.

(** Two headers written into a buffer of 5 bytes, 2 bytes then 3 bytes:
    the bytes land one after the other from the address of the buffer. *)
Lemma cursor_monotonic_witness :
  offset
    (write_chain [(2%nat, fun p m => store_bytes p [1; 2] m);
                  (3%nat, fun p m => store_bytes p [3; 4; 5] m)]
       (buffer_cursor example_bdesc 5) (fun _ => 0)).1.2 = 5
  /\ (write_chain [(2%nat, fun p m => store_bytes p [1; 2] m);
                   (3%nat, fun p m => store_bytes p [3; 4; 5] m)]
        (buffer_cursor example_bdesc 5) (fun _ => 0)).1.1
     = [(0, 2); (2, 5)]
  /\ load_bytes
       (write_chain [(2%nat, fun p m => store_bytes p [1; 2] m);
                     (3%nat, fun p m => store_bytes p [3; 4; 5] m)]
          (buffer_cursor example_bdesc 5) (fun _ => 0)).2
       (bdesc_va example_bdesc) 5
     = [1; 2; 3; 4; 5].
Proof.
  split; [|split; reflexivity].
  apply (cursor_monotonic
           [(2%nat, fun p m => store_bytes p [1; 2] m);
            (3%nat, fun p m => store_bytes p [3; 4; 5] m)]
           example_bdesc 5 (fun _ => 0)).
  cbn. lia.
Defined.

(** *** The broadcast address *)

Lemma send_frame_memory_outside (e : endianness) {pool exn : Type}
    (mpipe_alloc_buffer : pool -> Z -> (exn + gxio_mpipe_bdesc_t) * pool)
    (bad_function_call : exn)
    (w : world) payload_size dst ether_type payload_writer (a : Z) :
  (forall bdesc buffers',
     mpipe_alloc_buffer (buffers (mpipe_env w)) (size_add 14 payload_size)
     = (inr bdesc, buffers') ->
     (a < bdesc_va bdesc \/ bdesc_va bdesc + 14 <= a)
     /\ forall m,
          (call bad_function_call payload_writer
             {| cursor_bdesc := bdesc; offset := 14;
                capacity := size_add 14 payload_size |} m).2 a
          = m a) ->
  memory (ethernet_send_frame e mpipe_alloc_buffer bad_function_call
            payload_size dst ether_type payload_writer w).2 a
  = memory w a.
Proof.
  intros Hbuffer.
  destruct (mpipe_alloc_buffer (buffers (mpipe_env w))
              (size_add 14 payload_size)) as [[err|bdesc] buffers'] eqn:Halloc.
  - by rewrite (send_frame_failed e mpipe_alloc_buffer bad_function_call w
                  payload_size dst ether_type payload_writer err buffers'
                  Halloc).
  - destruct (Hbuffer bdesc buffers' eq_refl) as [Hout Hwriter].
    specialize (Hwriter
                  (_ethernet_write_header e (mpipe_env w)
                     (buffer_cursor bdesc (size_add 14 payload_size))
                     dst ether_type (memory w)).2).
    destruct (call bad_function_call payload_writer
                {| cursor_bdesc := bdesc; offset := 14;
                   capacity := size_add 14 payload_size |}
                (_ethernet_write_header e (mpipe_env w)
                   (buffer_cursor bdesc (size_add 14 payload_size))
                   dst ether_type (memory w)).2)
      as [[err|[]] m'] eqn:Hcall.
    + rewrite (send_frame_writer_threw e mpipe_alloc_buffer
                 bad_function_call w payload_size dst ether_type
                 payload_writer bdesc buffers' err m' Halloc Hcall).
      cbn [snd memory] in *. rewrite Hwriter.
      apply write_header_outside.
      unfold cursor_ptr, buffer_cursor. cbn [cursor_bdesc offset]. lia.
    + rewrite (send_frame_returned e mpipe_alloc_buffer
                 bad_function_call w payload_size dst ether_type
                 payload_writer bdesc buffers' m' Halloc Hcall).
      cbn [snd memory] in *. rewrite Hwriter.
      apply write_header_outside.
      unfold cursor_ptr, buffer_cursor. cbn [cursor_bdesc offset]. lia.
Qed.

(** C10: [BROADCAST_ETHER_ADDR] is the six bytes FF FF FF FF FF FF.  It is
    a constant of the program, passed by value to the operations; the
    memory writes of [ethernet_send_frame] are confined to the 14 header
    bytes of the buffer it allocated and to what the payload writer
    writes, so six bytes of memory holding the constant, outside that
    header and left alone by the payload writer, still hold it after the
    call, whether the allocation succeeded or not and whether the payload
    writer returned or threw. *)
Theorem broadcast_ether_addr_constant :
  ether_addr_octet BROADCAST_ETHER_ADDR
  = [0xFF; 0xFF; 0xFF; 0xFF; 0xFF; 0xFF]
  /\ forall (e : endianness) (pool exn : Type)
       (mpipe_alloc_buffer :
          pool -> Z -> (exn + gxio_mpipe_bdesc_t) * pool)
       (bad_function_call : exn)
       (w : world) payload_size dst ether_type payload_writer (g : Z),
       load_bytes (memory w) g 6 = ether_addr_octet BROADCAST_ETHER_ADDR ->
       (forall bdesc buffers',
          mpipe_alloc_buffer (buffers (mpipe_env w))
            (size_add 14 payload_size) = (inr bdesc, buffers') ->
          (g + 6 <= bdesc_va bdesc \/ bdesc_va bdesc + 14 <= g)
          /\ forall m a,
               g <= a < g + 6 ->
               (call bad_function_call payload_writer
                  {| cursor_bdesc := bdesc; offset := 14;
                     capacity := size_add 14 payload_size |} m).2 a
               = m a) ->
       load_bytes
         (memory (ethernet_send_frame e mpipe_alloc_buffer
                    bad_function_call payload_size dst ether_type
                    payload_writer w).2) g 6
       = ether_addr_octet BROADCAST_ETHER_ADDR.
Proof.
  split; [reflexivity|].
  intros e pool exn mpipe_alloc_buffer bad_function_call w payload_size dst
    ether_type payload_writer g Hconst Hbuffer.
  rewrite <- Hconst. apply load_bytes_ext. intros a Ha.
  apply send_frame_memory_outside.
  intros bdesc buffers' Halloc.
  destruct (Hbuffer bdesc buffers' Halloc) as [Hout Hwriter].
  split; [lia|]. intros m. by apply Hwriter.
Qed.

Lemma broadcast_ether_addr_constant_witness :
  load_bytes
    (memory
       (ethernet_send_frame LittleEndian (stack_alloc 1664)
          "bad_function_call" 2 BROADCAST_ETHER_ADDR 0x0008
          (copy_payload [0x45; 0x00])
          (broadcast_world 0x20000 [example_bdesc])).2)
    0x20000 6
  = [0xFF; 0xFF; 0xFF; 0xFF; 0xFF; 0xFF].
Proof.
  apply (proj2 broadcast_ether_addr_constant LittleEndian _ _
           (stack_alloc 1664) "bad_function_call"
           (broadcast_world 0x20000 [example_bdesc]) 2
           BROADCAST_ETHER_ADDR 0x0008 (copy_payload [0x45; 0x00]) 0x20000).
  - reflexivity.
  - intros bdesc buffers' [= <- <-]. split; [cbn; lia|].
    intros m a Ha. unfold copy_payload, call, write_with. cbn [snd].
    apply store_bytes_outside.
    change (a < 0x1000E \/ 0x1000E + 2 <= a). lia.
Defined.

(** ** Part III: further properties of the code *)

(** *** Conversions preserve the range and undo each other *)

Lemma to_network_little T v :
  to_network LittleEndian T v = le_value (reverse (le_bytes (sizeof T) v)).
Proof.
  destruct T as [| |n]; cbn [to_network sizeof htons htonl].
  - apply bswap_16_bytes.
  - apply bswap_32_bytes.
  - apply change_endian_little.
Qed.

Lemma to_host_is_to_network e T v : to_host e T v = to_network e T v.
Proof. by destruct T, e. Qed.

Lemma modulus_pos T : 0 < modulus T.
Proof. unfold modulus. apply Z.pow_pos_nonneg; lia. Qed.

Lemma representable_to_network e T v :
  representable T v -> representable T (to_network e T v).
Proof.
  intros Hv. destruct e; [|by destruct T].
  rewrite to_network_little. unfold representable, modulus.
  pose proof (le_value_range (reverse (le_bytes (sizeof T) v))
                (Forall_reverse_le_bytes _ _)) as Hrange.
  by rewrite length_reverse, length_le_bytes in Hrange.
Qed.

Lemma representable_to_host e T v :
  representable T v -> representable T (to_host e T v).
Proof. rewrite to_host_is_to_network. apply representable_to_network. Qed.

Lemma to_network_to_host e T n :
  representable T n -> to_network e T (to_host e T n) = n.
Proof.
  intros Hn. rewrite <- (to_host_is_to_network e T (to_host e T n)).
  rewrite (to_host_is_to_network e T n). by apply to_host_to_network.
Qed.

Lemma net_t_eta {T} (a : net_t T) : {| net := net a |} = a.
Proof. by destruct a. Qed.

Lemma of_host_host e {T} (a : net_t T) :
  representable T (net a) -> of_host e T (host e a) = a.
Proof.
  intros Ha. unfold of_host, host. rewrite to_network_to_host by done.
  apply net_t_eta.
Qed.

Lemma representable_host e {T} (a : net_t T) :
  representable T (net a) -> representable T (host e a).
Proof. apply representable_to_host. Qed.

(** X1: the bytes of the [net] field, as they lie in the memory of the
    host, are the bytes of the host value most significant first (its
    big-endian representation), for every width and on either host byte
    order; a little-endian and a big-endian host therefore put the same
    bytes on the wire. *)
Theorem net_field_network_order (e : endianness) (T : host_t) (v : Z) :
  object_bytes e (sizeof T) (net (of_host e T v))
  = object_bytes BigEndian (sizeof T) v
  /\ object_bytes LittleEndian (sizeof T) (net (of_host LittleEndian T v))
     = object_bytes BigEndian (sizeof T) (net (of_host BigEndian T v)).
Proof.
  split.
  - apply to_network_network_order.
  - unfold of_host. cbn [net].
    rewrite (to_network_network_order LittleEndian).
    by rewrite (to_network_network_order BigEndian).
Qed.

(** X2: the conversions stay inside the type: the [net] field built from a
    representable host value is representable, and [host()] of a [net_t]
    with a representable [net] field is representable. *)
Theorem conversions_stay_representable (e : endianness) (T : host_t)
    (v : Z) (a : net_t T) :
  representable T v -> representable T (net a) ->
  representable T (net (of_host e T v)) /\ representable T (host e a).
Proof.
  intros Hv Ha. split.
  - by apply representable_to_network.
  - by apply representable_host.
Qed.

Lemma conversions_stay_representable_witness :
  representable uint16_t (net (of_host LittleEndian uint16_t 0x0800))
  /\ representable uint16_t (host LittleEndian (from_net uint16_t 0x0008)).
Proof.
  apply (conversions_stay_representable LittleEndian uint16_t 0x0800
           (from_net uint16_t 0x0008));
    unfold representable, modulus; simpl; lia.
Defined.

(** X3: the round trip in the other direction: for every representable
    value [n] in network byte order, reading [from_net(n)] through
    [host()] and constructing a [net_t] from the result gives [from_net(n)]
    back. *)
Theorem net_host_net_round_trip (e : endianness) (T : host_t) (n : Z) :
  representable T n ->
  of_host e T (host e (from_net T n)) = from_net T n.
Proof. intros Hn. by apply (of_host_host e (from_net T n)). Qed.

Lemma net_host_net_round_trip_witness :
  of_host LittleEndian uint32_t
    (host LittleEndian (from_net uint32_t 0x0100A8C0))
  = from_net uint32_t 0x0100A8C0.
Proof.
  apply (net_host_net_round_trip LittleEndian uint32_t 0x0100A8C0).
  unfold representable, modulus; simpl; lia.
Defined.

Lemma eq_net_net_iff_host e {T} (a b : net_t T) :
  representable T (net a) -> representable T (net b) ->
  eq_net_net a b = true <-> host e a = host e b.
Proof.
  intros Ha Hb. rewrite eq_net_net_true. unfold host.
  split; [by intros ->|]. intros Heq.
  rewrite <- (to_network_to_host e T (net a)) by done.
  rewrite <- (to_network_to_host e T (net b)) by done.
  by rewrite Heq.
Qed.

(** X4: on any two [net_t] (however they were constructed) with
    representable [net] fields, comparing the raw network-order fields
    decides the equality of the host values: [a == b] exactly when
    [a.host() == b.host()], and [a != b] exactly when they differ. *)
Theorem raw_equality_is_host_equality (e : endianness) (T : host_t)
    (a b : net_t T) :
  representable T (net a) -> representable T (net b) ->
  (eq_net_net a b = true <-> host e a = host e b)
  /\ (ne_net_net a b = true <-> host e a <> host e b).
Proof.
  intros Ha Hb.
  assert (net a = net b <-> host e a = host e b) as Hiff.
  { unfold host. split; [by intros ->|]. intros Heq.
    rewrite <- (to_network_to_host e T (net a)) by done.
    rewrite <- (to_network_to_host e T (net b)) by done.
    by rewrite Heq. }
  split.
  - rewrite eq_net_net_true. exact Hiff.
  - unfold ne_net_net. rewrite negb_true_iff, Z.eqb_neq.
    by rewrite Hiff.
Qed.

Lemma raw_equality_is_host_equality_witness :
  eq_net_net (from_net uint16_t 0x0008) (from_net uint16_t 0x0608) = true
  <-> host LittleEndian (from_net uint16_t 0x0008)
      = host LittleEndian (from_net uint16_t 0x0608).
Proof.
  apply (raw_equality_is_host_equality LittleEndian uint16_t
           (from_net uint16_t 0x0008) (from_net uint16_t 0x0608));
    unfold representable, modulus; simpl; lia.
Defined.

(** *** Arithmetic on [net_t] *)

Lemma host_add_net_net e {T} (a b : net_t T) :
  host e (add_net_net e a b) = (host e a + host e b) mod modulus T.
Proof.
  unfold add_net_net. rewrite host_of_host by apply representable_convert.
  reflexivity.
Qed.

Lemma host_sub_net_net e {T} (a b : net_t T) :
  host e (sub_net_net e a b) = (host e a - host e b) mod modulus T.
Proof.
  unfold sub_net_net. rewrite host_of_host by apply representable_convert.
  reflexivity.
Qed.

Lemma of_host_mod_small e T v :
  representable T v -> of_host e T (v mod modulus T) = of_host e T v.
Proof. intros Hv. by rewrite Z.mod_small. Qed.

(** X5: on [net_t] with representable [net] fields, [operator+] is
    commutative and associative, [net_t(0)] is neutral, and [operator-]
    undoes [operator+] (in both orders), wrap-around included. *)
Theorem net_t_addition_laws (e : endianness) (T : host_t) (a b c : net_t T) :
  representable T (net a) -> representable T (net b) ->
  representable T (net c) ->
  add_net_net e a b = add_net_net e b a
  /\ add_net_net e (add_net_net e a b) c
     = add_net_net e a (add_net_net e b c)
  /\ add_net_net e a (of_host e T 0) = a
  /\ sub_net_net e (add_net_net e a b) b = a
  /\ add_net_net e (sub_net_net e a b) b = a.
Proof.
  intros Ha Hb Hc.
  pose proof (modulus_pos T) as Hpos.
  pose proof (representable_host e a Ha) as Hha.
  split; [|split; [|split; [|split]]].
  - unfold add_net_net. by rewrite Z.add_comm.
  - unfold add_net_net at 1 3.
    rewrite !host_add_net_net. unfold convert.
    rewrite Z.add_mod_idemp_l, Z.add_mod_idemp_r by lia.
    by rewrite Z.add_assoc.
  - unfold add_net_net.
    rewrite host_of_host by (unfold representable; lia).
    rewrite Z.add_0_r. unfold convert.
    rewrite of_host_mod_small by done. by apply of_host_host.
  - unfold sub_net_net. rewrite host_add_net_net. unfold convert.
    rewrite Zminus_mod_idemp_l.
    replace (host e a + host e b - host e b) with (host e a) by lia.
    rewrite of_host_mod_small by done. by apply of_host_host.
  - unfold add_net_net. rewrite host_sub_net_net. unfold convert.
    rewrite Z.add_mod_idemp_l by lia.
    replace (host e a - host e b + host e b) with (host e a) by lia.
    rewrite of_host_mod_small by done. by apply of_host_host.
Qed.

Lemma net_t_addition_laws_witness :
  sub_net_net LittleEndian
    (add_net_net LittleEndian (from_net uint16_t 0xFFFF)
                              (from_net uint16_t 0x0200))
    (from_net uint16_t 0x0200)
  = from_net uint16_t 0xFFFF.
Proof.
  apply (net_t_addition_laws LittleEndian uint16_t
           (from_net uint16_t 0xFFFF) (from_net uint16_t 0x0200)
           (from_net uint16_t 0x0000));
    unfold representable, modulus; simpl; lia.
Defined.

(** X6: on [net_t] with representable [net] fields, the difference
    [a - b] reads as zero in host order exactly when [a == b]. *)
Theorem net_t_difference_zero (e : endianness) (T : host_t) (a b : net_t T) :
  representable T (net a) -> representable T (net b) ->
  host e (sub_net_net e a b) = 0 <-> eq_net_net a b = true.
Proof.
  intros Ha Hb.
  pose proof (modulus_pos T) as Hpos.
  pose proof (representable_host e a Ha) as Hha.
  pose proof (representable_host e b Hb) as Hhb.
  unfold representable in Hha, Hhb.
  rewrite host_sub_net_net.
  assert ((host e a - host e b) mod modulus T = 0 <-> host e a = host e b)
    as Hzero.
  { split.
    - intros Hmod.
      destruct (decide (host e b <= host e a)) as [Hle|Hgt].
      + rewrite Z.mod_small in Hmod by lia. lia.
      + replace (host e a - host e b)
          with (host e a - host e b + modulus T + (-1) * modulus T)
          in Hmod by lia.
        rewrite Z.mod_add, Z.mod_small in Hmod by lia. lia.
    - intros ->. rewrite Z.sub_diag. by apply Z.mod_0_l, Z.neq_sym, Z.lt_neq. }
  rewrite Hzero. symmetry.
  by apply (eq_net_net_iff_host e).
Qed.

Lemma net_t_difference_zero_witness :
  host LittleEndian
    (sub_net_net LittleEndian (from_net uint32_t 0x0100A8C0)
                              (from_net uint32_t 0x0100A8C0)) = 0
  <-> eq_net_net (from_net uint32_t 0x0100A8C0)
                 (from_net uint32_t 0x0100A8C0) = true.
Proof.
  apply (net_t_difference_zero LittleEndian uint32_t
           (from_net uint32_t 0x0100A8C0) (from_net uint32_t 0x0100A8C0));
    unfold representable, modulus; simpl; lia.
Defined.

(** X7: the operators that take one host-order operand behave as the
    value-to-value operators applied to [net_t] of that operand: for a
    [net_t] [a] with a representable [net] field and a representable host
    value [h], [a == h] is [a == net_t(h)], [a + h] is [a + net_t(h)],
    [a - h] is [a - net_t(h)], and likewise with the operands swapped. *)
Theorem mixed_operators_convert (e : endianness) (T : host_t)
    (a : net_t T) (h : Z) :
  representable T (net a) -> representable T h ->
  eq_net_host e a h = eq_net_net a (of_host e T h)
  /\ eq_host_net e h a = eq_net_net (of_host e T h) a
  /\ ne_net_host e a h = ne_net_net a (of_host e T h)
  /\ ne_host_net e h a = ne_net_net (of_host e T h) a
  /\ add_net_host e a h = add_net_net e a (of_host e T h)
  /\ add_host_net e h a = add_net_net e (of_host e T h) a
  /\ sub_net_host e a h = sub_net_net e a (of_host e T h)
  /\ sub_host_net e h a = sub_net_net e (of_host e T h) a.
Proof.
  intros Ha Hh.
  assert (representable T (net (of_host e T h))) as Hnh
    by (by apply representable_to_network).
  assert (eq_net_host e a h = eq_net_net a (of_host e T h)) as Hnet_host.
  { unfold eq_net_host. apply eq_true_iff_eq.
    rewrite (eq_net_net_iff_host e) by done.
    rewrite host_of_host by done. apply Z.eqb_eq. }
  assert (eq_host_net e h a = eq_net_net (of_host e T h) a) as Hhost_net.
  { unfold eq_host_net. apply eq_true_iff_eq.
    rewrite (eq_net_net_iff_host e) by done.
    rewrite host_of_host by done. apply Z.eqb_eq. }
  unfold ne_net_host, ne_host_net, ne_net_net,
    add_net_host, add_host_net, sub_net_host, sub_host_net,
    add_net_net, sub_net_net.
  rewrite !(host_of_host e T h) by done.
  repeat split; try done.
  - f_equal. exact Hnet_host.
  - f_equal. exact Hhost_net.
Qed.

Lemma mixed_operators_convert_witness :
  eq_net_host LittleEndian (from_net uint16_t 0x0008) 0x0800
  = eq_net_net (from_net uint16_t 0x0008)
               (of_host LittleEndian uint16_t 0x0800).
Proof.
  apply (mixed_operators_convert LittleEndian uint16_t
           (from_net uint16_t 0x0008) 0x0800);
    unfold representable, modulus; simpl; lia.
Defined.

(** *** When a host value is already in network byte order *)

(** X8: on a little-endian host [to_network] leaves a representable value
    unchanged exactly when the bytes of the value read the same in both
    directions (so every one-byte value is unchanged); on a big-endian
    host it leaves every value unchanged. *)
Theorem to_network_fixed_values (T : host_t) (v : Z) :
  representable T v ->
  (to_network LittleEndian T v = v
   <-> object_bytes LittleEndian (sizeof T) v
       = reverse (object_bytes LittleEndian (sizeof T) v))
  /\ (sizeof T = 1%nat -> to_network LittleEndian T v = v)
  /\ to_network BigEndian T v = v.
Proof.
  intros Hv. unfold representable, modulus in Hv.
  assert (to_network LittleEndian T v = v
          <-> le_bytes (sizeof T) v = reverse (le_bytes (sizeof T) v))
    as Hiff.
  { rewrite to_network_little. split.
    - intros Heq. rewrite <- Heq at 1. apply swapped_bytes.
    - intros <-. by apply le_value_le_bytes. }
  split; [exact Hiff|]. split; [|by destruct T].
  intros Hsize. apply Hiff. rewrite Hsize. reflexivity.
Qed.

Lemma to_network_fixed_values_witness :
  (to_network LittleEndian uint32_t 0x0A00000A = 0x0A00000A
   <-> object_bytes LittleEndian 4 0x0A00000A
       = reverse (object_bytes LittleEndian 4 0x0A00000A))
  /\ to_network LittleEndian (uint_other 1) 0x7F = 0x7F.
Proof.
  split.
  - apply (to_network_fixed_values uint32_t 0x0A00000A).
    unfold representable, modulus; simpl; lia.
  - apply (to_network_fixed_values (uint_other 1) 0x7F);
      try reflexivity; unfold representable, modulus; simpl; lia.
Defined.

(** *** The header writer on its own *)

Lemma load_bytes_at m1 m2 addr n a :
  load_bytes m1 addr n = load_bytes m2 addr n ->
  addr <= a < addr + Z.of_nat n -> m1 a = m2 a.
Proof.
  revert addr. induction n as [|n IH]; intros addr Hload Ha; [lia|].
  cbn [load_bytes] in Hload. injection Hload as Hhead Htail.
  destruct (decide (a = addr)) as [->|Hne]; [done|].
  apply (IH (addr + 1)); [done|lia].
Qed.

(** X9: called on any cursor, [_ethernet_write_header] returns the cursor
    advanced by 14 bytes (same buffer, same capacity), leaves at the old
    cursor position the destination address, the link's source address
    and the bytes of [ether_type], changes no byte outside these 14, and
    writing the same header again at the same cursor changes nothing. *)
Theorem ethernet_header_at_cursor (e : endianness) {pool : Type}
    (env : @mpipe_env_t pool) (cursor : buffer_cursor_t)
    (dst : ether_addr) (ether_type : Z) (m : mem) :
  (_ethernet_write_header e env cursor dst ether_type m).1
  = {| cursor_bdesc := cursor_bdesc cursor;
       offset := offset cursor + 14;
       capacity := capacity cursor |}
  /\ cursor_ptr (_ethernet_write_header e env cursor dst ether_type m).1
     = cursor_ptr cursor + 14
  /\ load_bytes (_ethernet_write_header e env cursor dst ether_type m).2
       (cursor_ptr cursor) 14
     = ether_addr_octet dst ++ ether_addr_octet (link_addr env)
       ++ object_bytes e 2 ether_type
  /\ (forall a,
        a < cursor_ptr cursor \/ cursor_ptr cursor + 14 <= a ->
        (_ethernet_write_header e env cursor dst ether_type m).2 a = m a)
  /\ (forall a,
        (_ethernet_write_header e env cursor dst ether_type
           (_ethernet_write_header e env cursor dst ether_type m).2).2 a
        = (_ethernet_write_header e env cursor dst ether_type m).2 a).
Proof.
  split; [reflexivity|].
  split.
  { rewrite write_header_cursor. unfold cursor_ptr.
    cbn [cursor_bdesc offset]. lia. }
  split; [apply write_header_bytes|].
  split; [intros a Ha; by apply write_header_outside|].
  intros a.
  destruct (decide (a < cursor_ptr cursor \/ cursor_ptr cursor + 14 <= a))
    as [Hout|Hin].
  - by apply write_header_outside.
  - apply (load_bytes_at _ _ (cursor_ptr cursor) 14); [|lia].
    by rewrite !write_header_bytes.
Qed.

Lemma ethernet_header_at_cursor_witness :
  load_bytes
    (_ethernet_write_header LittleEndian
       (mpipe_env (example_world [])) 
       {| cursor_bdesc := example_bdesc; offset := 4; capacity := 64 |}
       BROADCAST_ETHER_ADDR 0x0608 (fun _ => 0)).2
    0x10000 20
  = [0; 0; 0; 0;
     0xFF; 0xFF; 0xFF; 0xFF; 0xFF; 0xFF;
     0x11; 0x22; 0x33; 0x44; 0x55; 0x66;
     0x08; 0x06; 0; 0].
Proof.
  pose proof (ethernet_header_at_cursor LittleEndian
                (mpipe_env (example_world []))
                {| cursor_bdesc := example_bdesc; offset := 4;
                   capacity := 64 |}
                BROADCAST_ETHER_ADDR 0x0608 (fun _ => 0))
    as (_ & _ & Hbytes & Hout & _).
  change 20%nat with (4 + (14 + 2))%nat.
  rewrite (load_bytes_app _ 0x10000 4 (14 + 2)).
  rewrite (load_bytes_app _ (0x10000 + Z.of_nat 4) 14 2).
  change (cursor_ptr {| cursor_bdesc := example_bdesc; offset := 4;
                        capacity := 64 |}) with (0x10000 + Z.of_nat 4)
    in Hbytes.
  rewrite Hbytes.
  cbn [load_bytes].
  rewrite !Hout by (unfold cursor_ptr; cbn; lia).
  reflexivity.
Defined.

(** *** Frames already on the egress queue *)

Lemma send_frame_queue_grows (e : endianness) {pool exn : Type}
    (mpipe_alloc_buffer : pool -> Z -> (exn + gxio_mpipe_bdesc_t) * pool)
    (bad_function_call : exn)
    (w : world) payload_size dst ether_type payload_writer :
  exists rest,
    equeue (mpipe_env
              (ethernet_send_frame e mpipe_alloc_buffer bad_function_call
                 payload_size dst ether_type payload_writer w).2)
    = equeue (mpipe_env w) ++ rest
    /\ (length rest <= 1)%nat.
Proof.
  destruct (mpipe_alloc_buffer (buffers (mpipe_env w))
              (size_add 14 payload_size)) as [[err|bdesc] buffers'] eqn:Halloc.
  - rewrite (send_frame_failed e mpipe_alloc_buffer bad_function_call w
               payload_size dst ether_type payload_writer err buffers'
               Halloc).
    exists []. cbn [snd mpipe_env equeue length].
    split; [by rewrite app_nil_r|lia].
  - destruct (call bad_function_call payload_writer
                {| cursor_bdesc := bdesc; offset := 14;
                   capacity := size_add 14 payload_size |}
                (_ethernet_write_header e (mpipe_env w)
                   (buffer_cursor bdesc (size_add 14 payload_size))
                   dst ether_type (memory w)).2)
      as [[err|[]] m'] eqn:Hcall.
    + rewrite (send_frame_writer_threw e mpipe_alloc_buffer
                 bad_function_call w payload_size dst ether_type
                 payload_writer bdesc buffers' err m' Halloc Hcall).
      exists []. cbn [snd mpipe_env equeue length].
      split; [by rewrite app_nil_r|lia].
    + rewrite (send_frame_returned e mpipe_alloc_buffer
                 bad_function_call w payload_size dst ether_type
                 payload_writer bdesc buffers' m' Halloc Hcall).
      eexists [_]. cbn [snd mpipe_env equeue length].
      split; [reflexivity|lia].
Qed.

(** X10: a call of [ethernet_send_frame], whether it returns or ends with
    an error of the allocator or of the payload writer, only appends to
    the egress queue (at most one descriptor), and the frames queued
    before the call still read the same afterwards, provided none of their
    bytes lies in the 14 header bytes of the newly allocated buffer or is
    written by the payload writer. *)
Theorem queued_frames_preserved (e : endianness) {pool exn : Type}
    (mpipe_alloc_buffer : pool -> Z -> (exn + gxio_mpipe_bdesc_t) * pool)
    (bad_function_call : exn)
    (w : world) (payload_size : Z) (dst : ether_addr) (ether_type : Z)
    (payload_writer : std_function) :
  (forall bdesc buffers',
     mpipe_alloc_buffer (buffers (mpipe_env w)) (size_add 14 payload_size)
     = (inr bdesc, buffers') ->
     forall edesc a,
       edesc ∈ equeue (mpipe_env w) ->
       va edesc <= a < va edesc + Z.of_nat (Z.to_nat (xfer_size edesc)) ->
       (a < bdesc_va bdesc \/ bdesc_va bdesc + 14 <= a)
       /\ forall m,
            (call bad_function_call payload_writer
               {| cursor_bdesc := bdesc; offset := 14;
                  capacity := size_add 14 payload_size |} m).2 a
            = m a) ->
  take (length (equeue (mpipe_env w)))
    (equeue (mpipe_env
               (ethernet_send_frame e mpipe_alloc_buffer bad_function_call
                  payload_size dst ether_type payload_writer w).2))
  = equeue (mpipe_env w)
  /\ (length (equeue (mpipe_env
                (ethernet_send_frame e mpipe_alloc_buffer bad_function_call
                   payload_size dst ether_type payload_writer w).2))
      <= S (length (equeue (mpipe_env w))))%nat
  /\ take (length (equeue (mpipe_env w)))
       (submitted_frames
          (ethernet_send_frame e mpipe_alloc_buffer bad_function_call
             payload_size dst ether_type payload_writer w).2)
     = submitted_frames w.
Proof.
  intros Hdisjoint.
  destruct (send_frame_queue_grows e mpipe_alloc_buffer bad_function_call w
              payload_size dst ether_type payload_writer)
    as (rest & Hqueue & Hrest).
  split; [by rewrite Hqueue, take_app_length|].
  split; [rewrite Hqueue, length_app; lia|].
  unfold submitted_frames. rewrite Hqueue, map_app.
  rewrite take_app_length' by (by rewrite length_map).
  apply map_ext_in. intros edesc Hin.
  apply load_bytes_ext. intros a Ha.
  apply send_frame_memory_outside.
  intros bdesc buffers' Halloc.
  apply (Hdisjoint bdesc buffers' Halloc edesc a); [|done].
  by apply list_elem_of_In.
Qed.

(** Two frames sent one after the other from a stack of two buffers: the
    first frame is still on the queue, unchanged, after the second call. *)
Lemma queued_frames_preserved_witness :
  take 1
    (submitted_frames
       (ethernet_send_frame LittleEndian (stack_alloc 1664)
          "bad_function_call" 2
          BROADCAST_ETHER_ADDR 0x0608 (copy_payload [0x00; 0x01])
          (ethernet_send_frame LittleEndian (stack_alloc 1664)
             "bad_function_call" 2
             example_dst 0x0008 (copy_payload [0x45; 0x00])
             (example_world [example_bdesc; example_bdesc2])).2).2)
  = [[0xAA; 0xBB; 0xCC; 0xDD; 0xEE; 0xFF;
      0x11; 0x22; 0x33; 0x44; 0x55; 0x66;
      0x08; 0x00; 0x45; 0x00]].
Proof.
  set (w1 := (ethernet_send_frame LittleEndian (stack_alloc 1664)
                "bad_function_call" 2
                example_dst 0x0008 (copy_payload [0x45; 0x00])
                (example_world [example_bdesc; example_bdesc2])).2).
  pose proof (queued_frames_preserved LittleEndian (stack_alloc 1664)
                "bad_function_call" w1 2
                BROADCAST_ETHER_ADDR 0x0608 (copy_payload [0x00; 0x01]))
    as Hkeep.
  destruct Hkeep as (_ & _ & Hframes).
  - intros bdesc buffers' [= <- <-] edesc a Hin Ha.
    apply list_elem_of_singleton in Hin. subst edesc.
    change (0x10000 <= a < 0x10000 + 16) in Ha.
    split; [cbn; lia|].
    intros m. unfold copy_payload, call, write_with. cbn [snd].
    apply store_bytes_outside.
    change (a < 0x1080E \/ 0x1080E + 2 <= a). lia.
  - exact Hframes.
Defined.

(** *** Payload sizes that wrap the frame size *)

Lemma size_add_wraps payload_size :
  SIZE_MODULUS - 14 <= payload_size < SIZE_MODULUS ->
  size_add 14 payload_size = payload_size - (SIZE_MODULUS - 14).
Proof.
  intros Hsize. unfold size_add, SIZE_MODULUS in *.
  replace (14 + payload_size)
    with (payload_size - (2 ^ 64 - 14) + 1 * 2 ^ 64) by lia.
  rewrite Z.mod_add by lia. apply Z.mod_small. lia.
Qed.

(** X12: for every payload size in the last 14 values of [size_t] the
    frame size wraps around: the buffer is requested for fewer than 14
    bytes, and when that allocation succeeds the header is still written
    in full (14 bytes) and the payload writer is called on a cursor whose
    offset is beyond its capacity.  The call then ends as the payload
    writer does: if the writer returns, one descriptor is queued with a
    transfer size below the size of an Ethernet header; if the writer
    throws (or is empty), the call ends with its error and nothing is
    queued. *)
Theorem wrapped_frame_is_short (e : endianness) {pool exn : Type}
    (mpipe_alloc_buffer : pool -> Z -> (exn + gxio_mpipe_bdesc_t) * pool)
    (bad_function_call : exn)
    (w : world) (payload_size : Z) (dst : ether_addr) (ether_type : Z)
    (payload_writer : std_function)
    (bdesc : gxio_mpipe_bdesc_t) (buffers' : pool) :
  SIZE_MODULUS - 14 <= payload_size < SIZE_MODULUS ->
  mpipe_alloc_buffer (buffers (mpipe_env w))
    (payload_size - (SIZE_MODULUS - 14)) = (inr bdesc, buffers') ->
  exists (m_hdr : mem) (cursor : buffer_cursor_t),
    load_bytes m_hdr (bdesc_va bdesc) 14
    = ether_addr_octet dst ++ ether_addr_octet (link_addr (mpipe_env w))
      ++ object_bytes e 2 ether_type
    /\ cursor_bdesc cursor = bdesc
    /\ offset cursor = 14
    /\ capacity cursor = payload_size - (SIZE_MODULUS - 14)
    /\ capacity cursor < offset cursor
    /\ (ethernet_send_frame e mpipe_alloc_buffer bad_function_call
          payload_size dst ether_type payload_writer w).1
       = (call bad_function_call payload_writer cursor m_hdr).1
    /\ memory (ethernet_send_frame e mpipe_alloc_buffer bad_function_call
                 payload_size dst ether_type payload_writer w).2
       = (call bad_function_call payload_writer cursor m_hdr).2
    /\ map xfer_size
         (equeue (mpipe_env
                    (ethernet_send_frame e mpipe_alloc_buffer
                       bad_function_call payload_size dst ether_type
                       payload_writer w).2))
       = map xfer_size (equeue (mpipe_env w))
         ++ match (call bad_function_call payload_writer cursor m_hdr).1 with
            | inr _ => [payload_size - (SIZE_MODULUS - 14)]
            | inl _ => []
            end
    /\ 0 <= payload_size - (SIZE_MODULUS - 14) < 14.
Proof.
  intros Hsize Halloc.
  rewrite <- (size_add_wraps payload_size Hsize) in *.
  pose proof (size_add_wraps payload_size Hsize) as Hwrap.
  exists (_ethernet_write_header e (mpipe_env w)
            (buffer_cursor bdesc (size_add 14 payload_size))
            dst ether_type (memory w)).2,
         {| cursor_bdesc := bdesc; offset := 14;
            capacity := size_add 14 payload_size |}.
  split.
  { pose proof (write_header_bytes e (mpipe_env w)
                  (buffer_cursor bdesc (size_add 14 payload_size))
                  dst ether_type (memory w)) as Hbytes.
    replace (cursor_ptr (buffer_cursor bdesc (size_add 14 payload_size)))
      with (bdesc_va bdesc) in Hbytes
      by (unfold cursor_ptr, buffer_cursor; cbn [cursor_bdesc offset]; lia).
    exact Hbytes. }
  cbn [cursor_bdesc offset capacity].
  split; [reflexivity|]. split; [reflexivity|]. split; [reflexivity|].
  split; [lia|].
  destruct (call bad_function_call payload_writer
              {| cursor_bdesc := bdesc; offset := 14;
                 capacity := size_add 14 payload_size |}
              (_ethernet_write_header e (mpipe_env w)
                 (buffer_cursor bdesc (size_add 14 payload_size))
                 dst ether_type (memory w)).2)
    as [[err|[]] m'] eqn:Hcall.
  - rewrite (send_frame_writer_threw e mpipe_alloc_buffer
               bad_function_call w payload_size dst ether_type
               payload_writer bdesc buffers' err m' Halloc Hcall).
    cbn [fst snd memory mpipe_env equeue].
    split; [reflexivity|]. split; [reflexivity|].
    split; [by rewrite app_nil_r|lia].
  - rewrite (send_frame_returned e mpipe_alloc_buffer
               bad_function_call w payload_size dst ether_type
               payload_writer bdesc buffers' m' Halloc Hcall).
    cbn [fst snd memory mpipe_env equeue].
    split; [reflexivity|]. split; [reflexivity|].
    split; [by rewrite map_app|lia].
Qed.

Lemma wrapped_frame_is_short_witness :
  (example_send_frame LittleEndian (2 ^ 64 - 4) example_dst 0x0008
     no_payload (example_world [example_bdesc])).1 = inr ()
  /\ map xfer_size
       (equeue (mpipe_env
                  (example_send_frame LittleEndian (2 ^ 64 - 4) example_dst
                     0x0008 no_payload (example_world [example_bdesc])).2))
     = [10].
Proof.
  unfold example_send_frame.
  destruct (wrapped_frame_is_short LittleEndian (stack_alloc 1664)
              "bad_function_call" (example_world [example_bdesc])
              (2 ^ 64 - 4) example_dst 0x0008 no_payload example_bdesc [])
    as (m_hdr & cursor & _ & _ & _ & _ & _ & Hresult & _ & Hqueue & _).
  - unfold SIZE_MODULUS. lia.
  - reflexivity.
  - split; [exact Hresult|]. rewrite Hqueue. reflexivity.
Defined.
